(** * Image canvas objects of ginga: the incremental compositing pipeline

    A shallow embedding of [ginga/canvas/types/image.py]: the classes
    [ImageP] (raw RGB images) and [NormImageP] (cut-level normalised and
    colour-mapped images), their per-viewer render cache and the editing
    operations.

    Conventions of the embedding.
    - Python numbers ([whence], coordinates, scales) are finite and are
      modelled by exact rationals [Q].  Comparisons, [min], [max], [int]
      and [np.ceil] are exact on finite floats, so the guards and the
      bounding box are modelled exactly; sums and products are idealised,
      but for the product that [get_scaled_wdht] truncates to the size in
      pixels, which is rounded to binary64 as the machine rounds it.
    - numpy arrays, the image, the colour mapper and the auto-cuts object
      are values of abstract types; the collaborators that this file only
      calls ([trcalc], the viewer, the image, the colour mapper, the base
      class and the mixin) are the fields of one interface record.
    - The object is a record that the methods pass along; a method that can
      raise returns the outcome together with the object as it is at that
      moment.  A cache entry (a [Bunch]) is shared between the dictionary and
      the code that fills it, so the filled entry is stored back under the
      viewer's key.
    - [time.time()] and [logger.debug] have no part in the results and are
      left out. *)

From Stdlib Require Import ZArith QArith Qround Qminmax String Ascii List Bool Lia Lqa.
From Stdlib Require SpecFloat.
From stdpp Require Import gmap strings pretty.
Import ListNotations.

Local Open Scope Z_scope.

(** ** Python values *)

Module Py.

(** [int(x)] on a number: truncation toward zero. *)
Definition int (x : Q) : Z := Z.quot (Qnum x) (Zpos (Qden x)).

(** [np.ceil(x)] and [np.floor(x)]. *)
Definition ceil (x : Q) : Z := Qceiling x.
Definition floor (x : Q) : Z := Qfloor x.

(** [np.min] and [np.max] of a one-dimensional array that is not empty. *)
Definition np_min (x : Q) (xs : list Q) : Q := fold_left Qmin xs x.
Definition np_max (x : Q) (xs : list Q) : Q := fold_left Qmax xs x.

(** [np.round(x)]: to the nearest integer, a tie to the even one. *)
Definition round (x : Q) : Z :=
  let f := Qfloor x in
  match Qcompare (x - inject_Z f) (1 # 2) with
  | Lt => f
  | Gt => f + 1
  | Eq => if Z.even f then f else f + 1
  end.

(** [s.index(c)] for a one-character [c]; [None] when [c in s] is false. *)
Fixpoint index (c : ascii) (s : string) : option nat :=
  match s with
  | EmptyString => None
  | String d r => if Ascii.eqb c d then Some O else option_map S (index c r)
  end.

(** *** Floats

    A Python float is a binary64 number: 53 bits of mantissa, the
    exponent of the infinities is 1024. *)
Definition prec : Z := 53.
Definition emax : Z := 1024.

(** [float(n)] of an integer: the nearest float, an infinity where
    Python raises [OverflowError]. *)
Definition float_of_int (n : Z) : SpecFloat.spec_float :=
  SpecFloat.binary_normalize prec emax n 0 false.

(** The float that a rational of the model stands for: the float nearest
    to it, a tie to the even one, which is the rational itself when it is
    the value of a float. *)
Definition float_of (x : Q) : SpecFloat.spec_float :=
  let den := SpecFloat.S754_finite false (Qden x) 0 in
  match Qnum x with
  | Z0 => SpecFloat.S754_zero false
  | Zpos n => SpecFloat.SFdiv prec emax (SpecFloat.S754_finite false n 0) den
  | Zneg n => SpecFloat.SFdiv prec emax (SpecFloat.S754_finite true n 0) den
  end.

(** [int(f)] on a float: truncation toward zero; it raises on an infinity
    ([OverflowError]) and on a NaN, which is [None] here. *)
Definition int_of_float (f : SpecFloat.spec_float) : option Z :=
  match f with
  | SpecFloat.S754_zero _ => Some 0
  | SpecFloat.S754_finite s m e =>
      let a := Z.shiftl (Zpos m) e in
      Some (if s then - a else a)
  | SpecFloat.S754_infinity _ | SpecFloat.S754_nan => None
  end.

(** [int(n * x)] for an integer [n] and a float [x]: [n] becomes a float,
    the product is rounded to the nearest float, and [int] truncates what
    the rounding gives. *)
Definition int_of_product (n : Z) (x : Q) : option Z :=
  int_of_float (SpecFloat.SFmul prec emax (float_of_int n) (float_of x)).

(** Exceptions, and the outcome of a call that may raise.  Those that the
    interpreter raises are known by their class. *)
Inductive exn : Type :=
| ValueError (msg : string)
| AttributeError
| OverflowError.

Inductive outcome (A : Type) : Type :=
| Returned (a : A)
| Raised (e : exn).
Arguments Returned {A} a.
Arguments Raised {A} e.

Definition is_raised {A} (o : outcome A) : bool :=
  match o with Raised _ => true | Returned _ => false end.

End Py.

(** ** The collaborators

    Everything the module imports or receives and only calls. *)

Record Collab : Type := {
  (** numpy pixel arrays *)
  ndarray : Type;
  (** the image: [width], [height], [get_order()], [get_scaled_cutout2] *)
  image_t : Type;
  img_width : image_t -> Z;
  img_height : image_t -> Z;
  get_order : image_t -> string;
  get_scaled_cutout2 :
    image_t -> Q * Q -> Q * Q -> Q * Q -> string -> ndarray;
  (** the colour mapper: [get_hash_size()], [get_rgbarray(..).get_array(..)] *)
  rgbmap_t : Type;
  get_hash_size : rgbmap_t -> Z;
  get_rgbarray : rgbmap_t -> ndarray -> string -> string -> ndarray;
  (** the auto-cuts object: [cut_levels(data, lo, hi, vmin, vmax)] *)
  autocuts_t : Type;
  cut_levels : autocuts_t -> ndarray -> Q -> Q -> Z -> Z -> ndarray;
  (** [trcalc] *)
  interpolation_methods : list string;
  calc_image_merge_clip :
    Z * Z -> Z * Z -> Q * Q -> Z * Z -> Z * Z -> (Q * Q) * (Q * Q) * (Q * Q);
  (** the pixels of the destination after [trcalc.overlay_image] *)
  dst_pixels : Type;
  overlay_image :
    dst_pixels -> Z * Z * Z -> Z * Z -> ndarray -> string -> string -> Q ->
    dst_pixels;
  (** numpy on arrays: [np.flipud], the normalised alpha plane
      [(a[..., i] / mx * maxc).astype(dtype)] with [mx] from
      [trcalc.get_minmax_dtype], the slice [a[..., 0:i]], the conversion
      to unsigned integers when the dtype is not one already, and the
      assignment [a[..., i] = plane] *)
  flipud : ndarray -> ndarray;
  alpha_plane : ndarray -> nat -> rgbmap_t -> ndarray;
  strip_from : ndarray -> nat -> ndarray;
  as_uint : ndarray -> ndarray;
  set_plane : ndarray -> nat -> ndarray -> ndarray;
  (** the coordinate map of the object, [crdmap.to_data] *)
  to_data : Q * Q -> Q * Q;
  (** the mixin and the base class: [move_delta_pt] gives the position of
      an object moved by an offset in data coordinates,
      [calc_dual_scale_from_pt] the two scale factors *)
  edit_detail : Type;
  detail_scale_x : edit_detail -> Q;
  detail_scale_y : edit_detail -> Q;
  move_delta_pt : Q * Q -> Q * Q -> Q * Q;
  calc_dual_scale_from_pt : Q * Q -> edit_detail -> Q * Q
}.

(** ** The bounding box of the draw rectangle

    Lines 173-177 of [_common_draw]. *)

Module BBox.

(** [viewer.get_draw_rect()]: the corners of the viewport, a polygon with
    at least one point. *)
Record polygon : Type := { first_pt : Q * Q; more_pts : list (Q * Q) }.

Definition xs (p : polygon) : Q * list Q := (fst (first_pt p), map fst (more_pts p)).
Definition ys (p : polygon) : Q * list Q := (snd (first_pt p), map snd (more_pts p)).

(** [np.min(pts[0])], [np.min(pts[1])], [np.max(pts[0])], [np.max(pts[1])]. *)
Definition least_x (p : polygon) : Q := Py.np_min (fst (xs p)) (snd (xs p)).
Definition least_y (p : polygon) : Q := Py.np_min (fst (ys p)) (snd (ys p)).
Definition greatest_x (p : polygon) : Q := Py.np_max (fst (xs p)) (snd (xs p)).
Definition greatest_y (p : polygon) : Q := Py.np_max (fst (ys p)) (snd (ys p)).

Definition xmin (p : polygon) : Z := Py.int (least_x p).
Definition ymin (p : polygon) : Z := Py.int (least_y p).
Definition xmax (p : polygon) : Z := Py.ceil (greatest_x p).
Definition ymax (p : polygon) : Z := Py.ceil (greatest_y p).

End BBox.

(** ** The per-viewer cache entry

    A [Bunch] filled by [_reset_cache]; an attribute that a variant never
    sets is [None]. *)

Module Cache.
Section Entry.
Context {E : Collab}.

Record entry : Type := {
  cutout : option (ndarray E);
  alpha : option (ndarray E);
  prergb : option (ndarray E);
  rgbarr : option (ndarray E);
  drawn : bool;
  cvs_pos : Z * Z
}.

(** [Bunch.Bunch()] *)
Definition fresh : entry :=
  {| cutout := None; alpha := None; prergb := None; rgbarr := None;
     drawn := false; cvs_pos := (0, 0) |}.

Definition set_cutout (v : option (ndarray E)) (c : entry) : entry :=
  {| cutout := v; alpha := alpha c; prergb := prergb c; rgbarr := rgbarr c;
     drawn := drawn c; cvs_pos := cvs_pos c |}.
Definition set_alpha (v : option (ndarray E)) (c : entry) : entry :=
  {| cutout := cutout c; alpha := v; prergb := prergb c; rgbarr := rgbarr c;
     drawn := drawn c; cvs_pos := cvs_pos c |}.
Definition set_prergb (v : option (ndarray E)) (c : entry) : entry :=
  {| cutout := cutout c; alpha := alpha c; prergb := v; rgbarr := rgbarr c;
     drawn := drawn c; cvs_pos := cvs_pos c |}.
Definition set_rgbarr (v : option (ndarray E)) (c : entry) : entry :=
  {| cutout := cutout c; alpha := alpha c; prergb := prergb c; rgbarr := v;
     drawn := drawn c; cvs_pos := cvs_pos c |}.
Definition set_drawn (v : bool) (c : entry) : entry :=
  {| cutout := cutout c; alpha := alpha c; prergb := prergb c; rgbarr := rgbarr c;
     drawn := v; cvs_pos := cvs_pos c |}.
Definition set_cvs_pos (v : Z * Z) (c : entry) : entry :=
  {| cutout := cutout c; alpha := alpha c; prergb := prergb c; rgbarr := rgbarr c;
     drawn := drawn c; cvs_pos := v |}.

End Entry.
Arguments entry : clear implicits.
End Cache.

(** ** The viewer, as far as the image objects consult it *)

Module Viewer.
Section Viewer.
Context {E : Collab}.

Record t : Type := {
  (** the identity of the viewer, the key of the cache dictionary *)
  ident : positive;
  get_draw_rect : BBox.polygon;
  get_scale_xy : Q * Q;
  get_pan : Q * Q;
  data_off : Q;
  get_rgb_order : string;
  get_rgbmap : rgbmap_t E;
  (** the settings that hold strings, [get_settings()] *)
  get_settings : gmap string string;
  autocuts : autocuts_t E;
  (** [t_['cuts']] *)
  t_cuts : Q * Q
}.

End Viewer.
Arguments t : clear implicits.
End Viewer.

(** ** The attributes of an image object *)

Inductive kind_t : Type :=
| image_kind        (* [ImageP]: [self.kind = 'image'] *)
| normimage_kind.   (* [NormImageP]: [self.kind = 'normimage'] *)

Module Self.
Section Self.
Context {E : Collab}.

Record t : Type := {
  kind : kind_t;
  x : Q;
  y : Q;
  image : option (image_t E);
  alpha : Q;
  scale_x : Q;
  scale_y : Q;
  interpolation : option string;
  flipy : bool;
  optimize : bool;
  _cache : gmap positive (Cache.entry E);
  _zorder : Z;
  (** [NormImageP] only *)
  rgbmap : option (rgbmap_t E);
  cuts : option (Q * Q);
  autocuts : option (autocuts_t E);
  (** the callbacks made so far with [make_callback], oldest first *)
  made_callbacks : list (string * option (image_t E))
}.

Definition set_xy (v : Q * Q) (s : t) : t :=
  {| kind := kind s; x := fst v; y := snd v; image := image s; alpha := alpha s;
     scale_x := scale_x s; scale_y := scale_y s;
     interpolation := interpolation s; flipy := flipy s;
     optimize := optimize s; _cache := _cache s; _zorder := _zorder s;
     rgbmap := rgbmap s; cuts := cuts s; autocuts := autocuts s;
     made_callbacks := made_callbacks s |}.
Definition set_image (v : option (image_t E)) (s : t) : t :=
  {| kind := kind s; x := x s; y := y s; image := v; alpha := alpha s;
     scale_x := scale_x s; scale_y := scale_y s;
     interpolation := interpolation s; flipy := flipy s;
     optimize := optimize s; _cache := _cache s; _zorder := _zorder s;
     rgbmap := rgbmap s; cuts := cuts s; autocuts := autocuts s;
     made_callbacks := made_callbacks s |}.
Definition set_scale_x (v : Q) (s : t) : t :=
  {| kind := kind s; x := x s; y := y s; image := image s; alpha := alpha s;
     scale_x := v; scale_y := scale_y s;
     interpolation := interpolation s; flipy := flipy s;
     optimize := optimize s; _cache := _cache s; _zorder := _zorder s;
     rgbmap := rgbmap s; cuts := cuts s; autocuts := autocuts s;
     made_callbacks := made_callbacks s |}.
Definition set_scale_y (v : Q) (s : t) : t :=
  {| kind := kind s; x := x s; y := y s; image := image s; alpha := alpha s;
     scale_x := scale_x s; scale_y := v;
     interpolation := interpolation s; flipy := flipy s;
     optimize := optimize s; _cache := _cache s; _zorder := _zorder s;
     rgbmap := rgbmap s; cuts := cuts s; autocuts := autocuts s;
     made_callbacks := made_callbacks s |}.
Definition set_cache (v : gmap positive (Cache.entry E)) (s : t) : t :=
  {| kind := kind s; x := x s; y := y s; image := image s; alpha := alpha s;
     scale_x := scale_x s; scale_y := scale_y s;
     interpolation := interpolation s; flipy := flipy s;
     optimize := optimize s; _cache := v; _zorder := _zorder s;
     rgbmap := rgbmap s; cuts := cuts s; autocuts := autocuts s;
     made_callbacks := made_callbacks s |}.
Definition set_made_callbacks (v : list (string * option (image_t E))) (s : t) : t :=
  {| kind := kind s; x := x s; y := y s; image := image s; alpha := alpha s;
     scale_x := scale_x s; scale_y := scale_y s;
     interpolation := interpolation s; flipy := flipy s;
     optimize := optimize s; _cache := _cache s; _zorder := _zorder s;
     rgbmap := rgbmap s; cuts := cuts s; autocuts := autocuts s;
     made_callbacks := v |}.

End Self.
Arguments t : clear implicits.
End Self.

(** ** Methods that may raise

    A method receives the object and returns an outcome with the object as
    the call leaves it, also when it raises. *)

Definition method (E : Collab) (A : Type) : Type :=
  Self.t E -> Py.outcome A * Self.t E.

#[export] Instance method_ret {E : Collab} : MRet (method E) :=
  fun A a s => (Py.Returned a, s).

#[export] Instance method_bind {E : Collab} : MBind (method E) :=
  fun A B k m s =>
    match m s with
    | (Py.Returned a, s') => k a s'
    | (Py.Raised e, s') => (Py.Raised e, s')
    end.

Definition raise {E : Collab} {A : Type} (e : Py.exn) : method E A :=
  fun s => (Py.Raised e, s).

Definition modify {E : Collab} (f : Self.t E -> Self.t E) : method E unit :=
  fun s => (Py.Returned tt, f s).

(** ** The destination array and the trace of a draw *)

Section Drawing.
Context {E : Collab}.

(** [dstarr]: its [shape] is [(ht, wd, dp)]; compositing writes pixels in
    place and leaves the shape. *)
Record dstarr : Type := { shape : Z * Z * Z; pixels : dst_pixels E }.

(** What a draw did, in order: the guarded blocks of the pipeline it
    entered and the calls of [trcalc.overlay_image] it made, with the
    position, the source array, the two channel orders and the alpha of
    the call. *)
Inductive event : Type :=
| cutout_stage
| alpha_stage
| visuals_stage
| colormap_stage
| overlay (pos : Z * Z) (src : ndarray E) (dst_order src_order : string) (a : Q).

Definition is_overlay (e : event) : bool :=
  match e with overlay _ _ _ _ _ => true | _ => false end.

(** The compositor calls of a trace. *)
Definition overlays (tr : list event) : list event := filter is_overlay tr.

(** [trcalc.overlay_image(dstarr, pos, src, dst_order=.., src_order=..,
    alpha=.., fill=True, flipy=False)] *)
Definition composite (dst : dstarr) (pos : Z * Z) (src : ndarray E)
    (dst_order src_order : string) (a : Q) : dstarr :=
  {| shape := shape dst;
     pixels := overlay_image E (pixels dst) (shape dst) pos src dst_order src_order a |}.

(** *** The cache dictionary *)

Definition ImageP_reset_cache (cache : Cache.entry E) : Cache.entry E :=
  Cache.set_cvs_pos (0, 0) (Cache.set_drawn false (Cache.set_cutout None cache)).

Definition NormImageP_reset_cache (cache : Cache.entry E) : Cache.entry E :=
  Cache.set_cvs_pos (0, 0)
    (Cache.set_drawn false
       (Cache.set_rgbarr None
          (Cache.set_prergb None
             (Cache.set_alpha None (Cache.set_cutout None cache))))).

(** [self._reset_cache(cache)], by the class of [self]. *)
Definition _reset_cache (self : Self.t E) (cache : Cache.entry E) : Cache.entry E :=
  match Self.kind self with
  | image_kind => ImageP_reset_cache cache
  | normimage_kind => NormImageP_reset_cache cache
  end.

Definition in_cache (self : Self.t E) (viewer : Viewer.t E) : bool :=
  bool_decide (is_Some (Self._cache self !! Viewer.ident viewer)).

Definition get_cache (self : Self.t E) (viewer : Viewer.t E)
  : Cache.entry E * Self.t E :=
  match Self._cache self !! Viewer.ident viewer with
  | Some cache => (cache, self)
  | None =>
      let cache := _reset_cache self Cache.fresh in
      (cache, Self.set_cache (<[Viewer.ident viewer := cache]> (Self._cache self)) self)
  end.

(** An entry that the code changed through its reference is the entry of
    the dictionary. *)
Definition store (viewer : Viewer.t E) (cache : Cache.entry E) (self : Self.t E)
  : Self.t E :=
  Self.set_cache (<[Viewer.ident viewer := cache]> (Self._cache self)) self.

Definition invalidate_cache (self : Self.t E) (viewer : Viewer.t E)
  : Cache.entry E * Self.t E :=
  let '(cache, self) := get_cache self viewer in
  let cache := _reset_cache self cache in
  (cache, store viewer cache self).

Definition reset_optimize (self : Self.t E) : Self.t E :=
  Self.set_cache (_reset_cache self <$> Self._cache self) self.

(** *** The cutout stage *)

(** Lines 203-212: the interpolation method of the cutout request. *)
Definition choose_interp (self : Self.t E) (viewer : Viewer.t E) : string :=
  let interp :=
    match Self.interpolation self with
    | Some m => m
    | None => default "basic"%string (Viewer.get_settings viewer !! "interpolation"%string)
    end in
  if bool_decide (interp ∈ interpolation_methods E) then interp else "basic"%string.

(** Lines 173-190: the bounding box of the viewport, and the part of the
    image that it leaves after [trcalc.calc_image_merge_clip]. *)
Definition merge_clip (self : Self.t E) (viewer : Viewer.t E) (img : image_t E)
  : (Q * Q) * (Q * Q) * (Q * Q) :=
  let rect := Viewer.get_draw_rect viewer in
  let xmin := BBox.xmin rect in
  let ymin := BBox.ymin rect in
  let xmax := BBox.xmax rect in
  let ymax := BBox.ymax rect in
  let '(dst_x, dst_y) := to_data E (Self.x self, Self.y self) in
  let '(a1, b1, a2, b2) := (0, 0, img_width E img - 1, img_height E img - 1) in
  calc_image_merge_clip E (xmin, ymin) (xmax, ymax) (dst_x, dst_y)
    (a1, b1) (a2, b2).

Definition _common_draw (self : Self.t E) (viewer : Viewer.t E) (dst : dstarr)
    (cache : Cache.entry E) (whence : Q) : Cache.entry E * list event :=
  match Self.image self with
  | None => (cache, [])
  | Some img =>
    if Qle_bool whence 0
       || match Cache.cutout cache with None => true | Some _ => false end
       || negb (Self.optimize self)
    then
      let '((dst_x, dst_y), (a1, b1), (a2, b2)) := merge_clip self viewer img in
      if Qle_bool (a2 - a1) 0 || Qle_bool (b2 - b1) 0 then
        (Cache.set_cutout None cache, [cutout_stage])
      else
        let '(scale_x, scale_y) := Viewer.get_scale_xy viewer in
        let '(_scale_x, _scale_y) :=
          (scale_x * Self.scale_x self, scale_y * Self.scale_y self)%Q in
        let interp := choose_interp self viewer in
        let data :=
          get_scaled_cutout2 E img (a1, b1) (a2, b2) (_scale_x, _scale_y) interp in
        let data := if Self.flipy self then flipud E data else data in
        let cache := Cache.set_cutout (Some data) cache in
        let '(pan_x, pan_y) := Viewer.get_pan viewer in
        let pan_off := Viewer.data_off viewer in
        let '(pan_x, pan_y) := (pan_x + pan_off, pan_y + pan_off)%Q in
        let '(off_x, off_y) := (dst_x - pan_x, dst_y - pan_y)%Q in
        let off_x := (off_x * scale_x)%Q in
        let off_y := (off_y * scale_y)%Q in
        let '(ht, wd, dp) := shape dst in
        let cvs_x := Py.round (inject_Z wd / 2 + off_x)%Q in
        let cvs_y := Py.round (inject_Z ht / 2 + off_y)%Q in
        (Cache.set_cvs_pos (cvs_x, cvs_y) cache, [cutout_stage])
    else (cache, [])
  end.

(** *** [ImageP.draw_image] *)

Definition ImageP_draw_image (self : Self.t E) (viewer : Viewer.t E)
    (dst : dstarr) (whence : Q) : Self.t E * dstarr * list event :=
  match Self.image self with
  | None => (self, dst, [])
  | Some img =>
    let '(cache, self) := get_cache self viewer in
    let '(cache, tr) := _common_draw self viewer dst cache whence in
    let self := store viewer cache self in
    match Cache.cutout cache with
    | None => (self, dst, tr)
    | Some cut =>
      let dst_order := Viewer.get_rgb_order viewer in
      let image_order := get_order E img in
      (self,
       composite dst (Cache.cvs_pos cache) cut dst_order image_order (Self.alpha self),
       tr ++ [overlay (Cache.cvs_pos cache) cut dst_order image_order (Self.alpha self)])
    end
  end.

(** *** [NormImageP] *)

Definition apply_visuals (self : Self.t E) (viewer : Viewer.t E)
    (data : ndarray E) (vmin vmax : Z) : ndarray E :=
  let autocuts :=
    match Self.autocuts self with
    | Some a => a
    | None => Viewer.autocuts viewer
    end in
  let '(loval, hival) :=
    match Self.cuts self with
    | Some c => c
    | None => Viewer.t_cuts viewer
    end in
  cut_levels E autocuts data loval hival vmin vmax.

(** Lines 449-458: the alpha plane is taken off the cutout [img_arr];
    the result is the entry and the cutout it now holds. *)
Definition split_alpha (rgbmap : rgbmap_t E) (image_order : string)
    (img_arr : ndarray E) (cache : Cache.entry E) : Cache.entry E * ndarray E :=
  match Py.index "A" image_order with
  | None => (Cache.set_alpha None cache, img_arr)
  | Some a_idx =>
      let cache := Cache.set_alpha (Some (alpha_plane E img_arr a_idx rgbmap)) cache in
      let cut := strip_from E img_arr a_idx in
      (Cache.set_cutout (Some cut) cache, cut)
  end.

(** Lines 462-471: the index array of the cutout [cut]. *)
Definition index_array (self : Self.t E) (viewer : Viewer.t E)
    (rgbmap : rgbmap_t E) (cut : ndarray E) : ndarray E :=
  let vmax := get_hash_size E rgbmap - 1 in
  let newdata := apply_visuals self viewer cut 0 vmax in
  as_uint E newdata.

(** Lines 478-484: the colour-mapped array, with the alpha plane put
    back when there is one and the destination order has ['A']. *)
Definition colour_map (rgbmap : rgbmap_t E) (dst_order image_order : string)
    (idx : ndarray E) (alpha : option (ndarray E)) : ndarray E :=
  let rgbarr := get_rgbarray E rgbmap idx dst_order image_order in
  match alpha, Py.index "A" dst_order with
  | Some plane, Some a_idx => set_plane E rgbarr a_idx plane
  | _, _ => rgbarr
  end.

(** Lines 436-484: the three stages after the cutout, on the entry
    [cache] whose cutout is [cut]; the result is the entry, the array to
    composite and the trace. *)
Definition normalise (self : Self.t E) (viewer : Viewer.t E) (img : image_t E)
    (whence : Q) (cut : ndarray E) (cache : Cache.entry E) (tr : list event)
  : Cache.entry E * ndarray E * list event :=
  let rgbmap :=
    match Self.rgbmap self with
    | Some m => m
    | None => Viewer.get_rgbmap viewer
    end in
  let image_order := get_order E img in
  let '(cache, cut, tr) :=
    if Qle_bool whence 0 || negb (Self.optimize self) then
      let '(cache, cut) := split_alpha rgbmap image_order cut cache in
      (cache, cut, tr ++ [alpha_stage])
    else (cache, cut, tr) in
  let '(cache, idx, tr) :=
    match Cache.prergb cache with
    | Some idx =>
        if Qle_bool whence 1 || negb (Self.optimize self) then
          let idx := index_array self viewer rgbmap cut in
          (Cache.set_prergb (Some idx) cache, idx, tr ++ [visuals_stage])
        else (cache, idx, tr)
    | None =>
        let idx := index_array self viewer rgbmap cut in
        (Cache.set_prergb (Some idx) cache, idx, tr ++ [visuals_stage])
    end in
  let dst_order := Viewer.get_rgb_order viewer in
  match Cache.rgbarr cache with
  | Some rgbarr =>
      if Qle_bool whence 2 || negb (Self.optimize self) then
        let rgbarr :=
          colour_map rgbmap dst_order image_order idx (Cache.alpha cache) in
        (Cache.set_rgbarr (Some rgbarr) cache, rgbarr, tr ++ [colormap_stage])
      else (cache, rgbarr, tr)
  | None =>
      let rgbarr :=
        colour_map rgbmap dst_order image_order idx (Cache.alpha cache) in
      (Cache.set_rgbarr (Some rgbarr) cache, rgbarr, tr ++ [colormap_stage])
  end.

Definition NormImageP_draw_image (self : Self.t E) (viewer : Viewer.t E)
    (dst : dstarr) (whence : Q) : Self.t E * dstarr * list event :=
  match Self.image self with
  | None => (self, dst, [])
  | Some img =>
    let '(cache, self) := get_cache self viewer in
    let '(cache, tr) := _common_draw self viewer dst cache whence in
    match Cache.cutout cache with
    | None => (store viewer cache self, dst, tr)
    | Some cut =>
      let '(cache, rgbarr, tr) := normalise self viewer img whence cut cache tr in
      let dst_order := Viewer.get_rgb_order viewer in
      (store viewer cache self,
       composite dst (Cache.cvs_pos cache) rgbarr dst_order dst_order (Self.alpha self),
       tr ++ [overlay (Cache.cvs_pos cache) rgbarr dst_order dst_order (Self.alpha self)])
    end
  end.

(** [self.draw_image(viewer, dstarr, whence)], by the class of [self]. *)
Definition draw_image (self : Self.t E) (viewer : Viewer.t E) (dst : dstarr)
    (whence : Q) : Self.t E * dstarr * list event :=
  match Self.kind self with
  | image_kind => ImageP_draw_image self viewer dst whence
  | normimage_kind => NormImageP_draw_image self viewer dst whence
  end.

(** *** Replacing the image *)

(** [self.make_callback(name, image)] *)
Definition make_callback (name : string) (arg : option (image_t E))
    (self : Self.t E) : Self.t E :=
  Self.set_made_callbacks (Self.made_callbacks self ++ [(name, arg)]) self.

Definition ImageP_set_image (self : Self.t E) (image : option (image_t E))
  : Self.t E :=
  let self := Self.set_image image self in
  let self := reset_optimize self in
  make_callback "image-set" image self.

Definition NormImageP_set_image (self : Self.t E) (image : option (image_t E))
  : Self.t E :=
  let self := Self.set_image image self in
  let self := reset_optimize self in
  make_callback "image-set" image self.

Definition set_image (self : Self.t E) (image : option (image_t E)) : Self.t E :=
  match Self.kind self with
  | image_kind => ImageP_set_image self image
  | normimage_kind => NormImageP_set_image self image
  end.

(** *** Placing *)

Definition set_scale (scale_x scale_y : Q) (self : Self.t E) : Self.t E :=
  reset_optimize (Self.set_scale_y scale_y (Self.set_scale_x scale_x self)).

Definition set_origin (x y : Q) (self : Self.t E) : Self.t E :=
  reset_optimize (Self.set_xy (x, y) self).

Definition rotate (theta xoff yoff : Q) : method E unit :=
  raise (Py.ValueError "Images cannot be rotated").

(** *** Geometry

    A method that reads [self.image.width] fails when there is no image,
    and [int] fails on a product that is not finite; [None] stands for
    the failure. *)
Definition get_scaled_wdht (self : Self.t E) : option (Z * Z) :=
  match Self.image self with
  | None => None
  | Some img =>
      match Py.int_of_product (img_width E img) (Self.scale_x self) with
      | None => None
      | Some width =>
          match Py.int_of_product (img_height E img) (Self.scale_y self) with
          | None => None
          | Some height => Some (width, height)
          end
      end
  end.

Definition get_coords (self : Self.t E) : option (Q * Q * Q * Q) :=
  let '(x1, y1) := to_data E (Self.x self, Self.y self) in
  match get_scaled_wdht self with
  | None => None
  | Some (wd, ht) =>
      let '(x2, y2) := (x1 + inject_Z wd - 1, y1 + inject_Z ht - 1)%Q in
      Some (x1, y1, x2, y2)
  end.

Definition get_llur (self : Self.t E) : option (Q * Q * Q * Q) := get_coords self.

Definition get_center_pt (self : Self.t E) : option (Q * Q) :=
  match get_scaled_wdht self with
  | None => None
  | Some (wd, ht) =>
      match get_coords self with
      | None => None
      | Some (x1, y1, x2, y2) => Some ((x1 + x2) / 2, (y1 + y2) / 2)%Q
      end
  end.

(** *** Editing *)

(** [self.move_to_pt(pt)] of the base class: the reference point of the
    object, which is [get_center_pt] (lines 269-272), is to come onto [pt],
    and the object is moved by the offset between the two.  Where
    [get_center_pt] raises, for want of an image ([self.image.width] on
    [None]) or of a finite size, the call raises and nothing is moved. *)
Definition self_move_to_pt (pt : Q * Q) : method E unit :=
  fun self =>
    match get_center_pt self with
    | Some (ref_x, ref_y) =>
        let off_pt := (pt.1 - ref_x, pt.2 - ref_y)%Q in
        modify (Self.set_xy (move_delta_pt E (Self.x self, Self.y self) off_pt)) self
    | None =>
        match Self.image self with
        | None => raise Py.AttributeError self
        | Some _ => raise Py.OverflowError self
        end
    end.

Definition set_edit_point (i : Z) (pt : Q * Q) (detail : edit_detail E)
  : method E unit :=
  (if i =? 0 then
     self_move_to_pt pt
   else if i =? 1 then
     let '(scale_x, scale_y) := calc_dual_scale_from_pt E pt detail in
     modify (Self.set_scale_x (detail_scale_x E detail * scale_x)%Q)
   else if i =? 2 then
     let '(scale_x, scale_y) := calc_dual_scale_from_pt E pt detail in
     modify (Self.set_scale_y (detail_scale_y E detail * scale_y)%Q)
   else if i =? 3 then
     let '(scale_x, scale_y) := calc_dual_scale_from_pt E pt detail in
     modify (Self.set_scale_x (detail_scale_x E detail * scale_x)%Q);;
     modify (Self.set_scale_y (detail_scale_y E detail * scale_y)%Q)
   else
     raise (Py.ValueError ("No point corresponding to index " +:+ pretty i)));;
  modify reset_optimize.

End Drawing.
Arguments dstarr : clear implicits.
Arguments event : clear implicits.

(** ** A small instance of the collaborators

    Arrays are lists of samples, the image carries its own pixels, the
    clip is the intersection of the placed image with the viewport, the
    colour map leaves the three colour samples, and the destination keeps
    what was composited onto it. *)

Module Sample.

Record picture : Type := {
  width : Z;
  height : Z;
  order : string;
  data : list Z
}.

Definition clip (p1 p2 : Z * Z) (dst : Q * Q) (q1 q2 : Z * Z)
  : (Q * Q) * (Q * Q) * (Q * Q) :=
  let '(x1, y1) := (inject_Z (fst p1), inject_Z (snd p1)) in
  let '(x2, y2) := (inject_Z (fst p2), inject_Z (snd p2)) in
  let '(dst_x, dst_y) := dst in
  let '(a1, b1) := (inject_Z (fst q1), inject_Z (snd q1)) in
  let '(a2, b2) := (inject_Z (fst q2), inject_Z (snd q2)) in
  let left := Qmax 0 (x1 - dst_x) in
  let low := Qmax 0 (y1 - dst_y) in
  let right := Qmax 0 (dst_x + (a2 - a1) - x2) in
  let high := Qmax 0 (dst_y + (b2 - b1) - y2) in
  ((Qred (dst_x + left), Qred (dst_y + low)),
   (Qred (a1 + left), Qred (b1 + low)),
   (Qred (a2 - right), Qred (b2 - high)))%Q.

Definition collab : Collab := {|
  ndarray := list Z;
  image_t := picture;
  img_width := width;
  img_height := height;
  get_order := order;
  get_scaled_cutout2 := fun img _ _ _ _ => data img;
  rgbmap_t := Z;
  get_hash_size := fun m => m;
  get_rgbarray := fun _ idx _ _ => idx;
  autocuts_t := unit;
  cut_levels := fun _ d _ _ vmin vmax => map (fun v => Z.max vmin (Z.min vmax v)) d;
  interpolation_methods := ["basic"; "bilinear"]%string;
  calc_image_merge_clip := clip;
  dst_pixels := list (Z * Z * list Z);
  overlay_image := fun px _ pos src _ _ _ => px ++ [(pos, src)];
  flipud := @rev Z;
  alpha_plane := fun a i _ => drop i a;
  strip_from := fun a i => take i a;
  as_uint := fun a => a;
  set_plane := fun a i plane => take i a ++ plane;
  to_data := fun p => p;
  edit_detail := Q * Q;
  detail_scale_x := fst;
  detail_scale_y := snd;
  move_delta_pt := fun pos off => (pos.1 + off.1, pos.2 + off.2)%Q;
  calc_dual_scale_from_pt := fun pt _ => pt
|}.

(** A ten by ten picture; any cutout of it is one pixel of four samples. *)
Definition pic : picture :=
  {| width := 10; height := 10; order := "RGBA"; data := [10; 20; 30; 255] |}.

(** A viewer that shows the data from (-1/2, -1/2) to (99/2, 99/2). *)
Definition viewer : Viewer.t collab := {|
  Viewer.ident := 1%positive;
  Viewer.get_draw_rect :=
    {| BBox.first_pt := (-1 # 2, -1 # 2)%Q;
       BBox.more_pts := [(99 # 2, -1 # 2); (99 # 2, 99 # 2); (-1 # 2, 99 # 2)]%Q |};
  Viewer.get_scale_xy := (1, 1)%Q;
  Viewer.get_pan := (25, 25)%Q;
  Viewer.data_off := (1 # 2)%Q;
  Viewer.get_rgb_order := "RGBA";
  Viewer.get_rgbmap := (256 : rgbmap_t collab);
  Viewer.get_settings := {["interpolation"%string := "bilinear"%string]};
  Viewer.autocuts := (tt : autocuts_t collab);
  Viewer.t_cuts := (0, 255)%Q
|}.

(** An object of the given class at the given place, drawn by no viewer
    yet. *)
Definition object (k : kind_t) (x y : Q) : Self.t collab := {|
  Self.kind := k;
  Self.x := x;
  Self.y := y;
  Self.image := Some (pic : image_t collab);
  Self.alpha := 1%Q;
  Self.scale_x := 1%Q;
  Self.scale_y := 1%Q;
  Self.interpolation := None;
  Self.flipy := false;
  Self.optimize := true;
  Self._cache := ∅;
  Self._zorder := 0;
  Self.rgbmap := None;
  Self.cuts := None;
  Self.autocuts := None;
  Self.made_callbacks := []
|}.

(** The same viewer after a pan that moves the picture out of sight. *)
Definition panned : Viewer.t collab := {|
  Viewer.ident := 1%positive;
  Viewer.get_draw_rect :=
    {| BBox.first_pt := (399 # 2, 399 # 2)%Q;
       BBox.more_pts := [(499 # 2, 399 # 2); (499 # 2, 499 # 2); (399 # 2, 499 # 2)]%Q |};
  Viewer.get_scale_xy := (1, 1)%Q;
  Viewer.get_pan := (225, 225)%Q;
  Viewer.data_off := (1 # 2)%Q;
  Viewer.get_rgb_order := "RGBA";
  Viewer.get_rgbmap := (256 : rgbmap_t collab);
  Viewer.get_settings := {["interpolation"%string := "bilinear"%string]};
  Viewer.autocuts := (tt : autocuts_t collab);
  Viewer.t_cuts := (0, 255)%Q
|}.

(** The same object with an interpolation method of its own. *)
Definition object_with_interpolation (m : string) : Self.t collab := {|
  Self.kind := image_kind;
  Self.x := 5%Q;
  Self.y := 5%Q;
  Self.image := Some (pic : image_t collab);
  Self.alpha := 1%Q;
  Self.scale_x := 1%Q;
  Self.scale_y := 1%Q;
  Self.interpolation := Some m;
  Self.flipy := false;
  Self.optimize := true;
  Self._cache := ∅;
  Self._zorder := 0;
  Self.rgbmap := None;
  Self.cuts := None;
  Self.autocuts := None;
  Self.made_callbacks := []
|}.

Definition canvas : dstarr collab :=
  {| shape := (50, 50, 4); pixels := ([] : dst_pixels collab) |}.

(** The entry of the viewer after it has drawn the normalised object at
    (5, 5) in full, and the object with that entry. *)
Definition drawn_entry : Cache.entry collab := {|
  Cache.cutout := Some ([10; 20; 30] : ndarray collab);
  Cache.alpha := Some ([255] : ndarray collab);
  Cache.prergb := Some ([10; 20; 30] : ndarray collab);
  Cache.rgbarr := Some ([10; 20; 30; 255] : ndarray collab);
  Cache.drawn := false;
  Cache.cvs_pos := (4, 4)
|}.

Definition drawn_object : Self.t collab :=
  store viewer drawn_entry (object normimage_kind 5 5).

Definition detail : edit_detail collab := (2, 2)%Q.

End Sample.

(** ** Statements about a draw and about an edit *)

Section Statements.
Context {E : Collab}.

(** The parts of the result of [draw_image]. *)
Definition object_after (r : Self.t E * dstarr E * list (event E)) : Self.t E := r.1.1.
Definition canvas_after (r : Self.t E * dstarr E * list (event E)) : dstarr E := r.1.2.
Definition trace_of (r : Self.t E * dstarr E * list (event E)) : list (event E) := r.2.

(** The entry that [get_cache] returns for a viewer. *)
Definition current_entry (self : Self.t E) (viewer : Viewer.t E) : Cache.entry E :=
  default (_reset_cache self Cache.fresh) (Self._cache self !! Viewer.ident viewer).

(** The entry of a viewer holds no cutout: there is no entry, or its
    cutout is [None]. *)
Definition no_cutout (self : Self.t E) (viewer : Viewer.t E) : Prop :=
  forall c, Self._cache self !! Viewer.ident viewer = Some c -> Cache.cutout c = None.

(** The off-screen property for one draw, without regard to the guard of
    the cutout stage: when the clip of the image against the viewport has
    no extent in some axis, the draw leaves an absent cutout and does not
    composite. *)
Definition offscreen_safe (self : Self.t E) (viewer : Viewer.t E)
    (dst : dstarr E) (whence : Q) : Prop :=
  forall img d a1 b1 a2 b2,
    Self.image self = Some img ->
    merge_clip self viewer img = (d, (a1, b1), (a2, b2)) ->
    (a2 - a1 <= 0)%Q \/ (b2 - b1 <= 0)%Q ->
    let r := draw_image self viewer dst whence in
    (exists c, Self._cache (object_after r) !! Viewer.ident viewer = Some c
               /\ Cache.cutout c = None)
    /\ overlays (trace_of r) = [].

(** What one draw does to the entry [c] of the viewer, for an object
    whose image is [img]: the entry it leaves, and the call of the
    compositor it makes, if any, as position, source array and source
    channel order. *)
Definition draw_entry (self : Self.t E) (viewer : Viewer.t E) (dst : dstarr E)
    (img : image_t E) (w : Q) (c : Cache.entry E)
  : Cache.entry E * option (Z * Z * ndarray E * string) :=
  let r := _common_draw self viewer dst c w in
  match Cache.cutout r.1 with
  | None => (r.1, None)
  | Some cut =>
      match Self.kind self with
      | image_kind => (r.1, Some (Cache.cvs_pos r.1, cut, get_order E img))
      | normimage_kind =>
          let n := normalise self viewer img w cut r.1 r.2 in
          (n.1.1, Some (Cache.cvs_pos n.1.1, n.1.2, Viewer.get_rgb_order viewer))
      end
  end.

(** The compositor calls of a draw that leaves [call]. *)
Definition overlay_of (self : Self.t E) (viewer : Viewer.t E)
    (call : option (Z * Z * ndarray E * string)) : list (event E) :=
  match call with
  | None => []
  | Some (pos, src, src_order) =>
      [overlay pos src (Viewer.get_rgb_order viewer) src_order (Self.alpha self)]
  end.

(** The choice of the interpolation method as a cascade of three: the
    setting of the object if it is a valid method, else the default of
    the viewer if that is one, else ["basic"]. *)
Definition cascade_interp (self : Self.t E) (viewer : Viewer.t E) : string :=
  let valid m := bool_decide (m ∈ interpolation_methods E) in
  match Self.interpolation self with
  | Some m =>
      if valid m then m
      else
        match Viewer.get_settings viewer !! "interpolation"%string with
        | Some d => if valid d then d else "basic"%string
        | None => "basic"%string
        end
  | None =>
      match Viewer.get_settings viewer !! "interpolation"%string with
      | Some d => if valid d then d else "basic"%string
      | None => "basic"%string
      end
  end.

(** An entry as [_reset_cache] of the class of [self] leaves it. *)
Definition is_reset (self : Self.t E) (c : Cache.entry E) : Prop :=
  Cache.cutout c = None /\ Cache.drawn c = false /\ Cache.cvs_pos c = (0, 0)
  /\ (Self.kind self = normimage_kind ->
      Cache.alpha c = None /\ Cache.prergb c = None /\ Cache.rgbarr c = None).

(** Every viewer that has an entry keeps one, and it is reset; no viewer
    gets one. *)
Definition caches_reset (self self' : Self.t E) : Prop :=
  (forall v, is_Some (Self._cache self' !! v) <-> is_Some (Self._cache self !! v))
  /\ (forall v c, Self._cache self' !! v = Some c -> is_reset self c).

(** The two objects differ at most in position, scales and cache. *)
Definition same_but_geometry (self self' : Self.t E) : Prop :=
  Self.kind self' = Self.kind self
  /\ Self.image self' = Self.image self
  /\ Self.alpha self' = Self.alpha self
  /\ Self.interpolation self' = Self.interpolation self
  /\ Self.flipy self' = Self.flipy self
  /\ Self.optimize self' = Self.optimize self
  /\ Self._zorder self' = Self._zorder self
  /\ Self.rgbmap self' = Self.rgbmap self
  /\ Self.cuts self' = Self.cuts self
  /\ Self.autocuts self' = Self.autocuts self
  /\ Self.made_callbacks self' = Self.made_callbacks self.

Definition position (self : Self.t E) : Q * Q := (Self.x self, Self.y self).

(** An edit that is applied: [set_edit_point] returns, and the call leaves
    the cache entry of every viewer reset. *)
Definition edit_applied (self : Self.t E) (i : Z) (pt : Q * Q)
    (detail : edit_detail E) : Prop :=
  let r := set_edit_point i pt detail self in
  r.1 = Py.Returned tt /\ caches_reset self r.2.

End Statements.

(** ** The other methods of the image objects *)

Section MoreMethods.
Context {E : Collab}.

(** *** Construction

    [ImageP.__init__] and [NormImageP.__init__]: the cache dictionary is
    empty and the z-order is 0.  The normalised class does not pass
    [flipy], which stays [False]; the raw class has no colour mapper, cuts
    or auto-cuts object.  The attributes of the outline are those of
    [outline] below. *)
Definition ImageP_init (pt : Q * Q) (image : option (image_t E))
    (alpha scale_x scale_y : Q) (interpolation : option string)
    (flipy optimize : bool) : Self.t E := {|
  Self.kind := image_kind;
  Self.x := pt.1;
  Self.y := pt.2;
  Self.image := image;
  Self.alpha := alpha;
  Self.scale_x := scale_x;
  Self.scale_y := scale_y;
  Self.interpolation := interpolation;
  Self.flipy := flipy;
  Self.optimize := optimize;
  Self._cache := ∅;
  Self._zorder := 0;
  Self.rgbmap := None;
  Self.cuts := None;
  Self.autocuts := None;
  Self.made_callbacks := []
|}.

Definition NormImageP_init (pt : Q * Q) (image : option (image_t E))
    (alpha scale_x scale_y : Q) (interpolation : option string)
    (cuts : option (Q * Q)) (optimize : bool) (rgbmap : option (rgbmap_t E))
    (autocuts : option (autocuts_t E)) : Self.t E := {|
  Self.kind := normimage_kind;
  Self.x := pt.1;
  Self.y := pt.2;
  Self.image := image;
  Self.alpha := alpha;
  Self.scale_x := scale_x;
  Self.scale_y := scale_y;
  Self.interpolation := interpolation;
  Self.flipy := false;
  Self.optimize := optimize;
  Self._cache := ∅;
  Self._zorder := 0;
  Self.rgbmap := rgbmap;
  Self.cuts := cuts;
  Self.autocuts := autocuts;
  Self.made_callbacks := []
|}.

(** *** The z-order *)

Definition with_zorder (z : Z) (s : Self.t E) : Self.t E := {|
  Self.kind := Self.kind s; Self.x := Self.x s; Self.y := Self.y s;
  Self.image := Self.image s; Self.alpha := Self.alpha s;
  Self.scale_x := Self.scale_x s; Self.scale_y := Self.scale_y s;
  Self.interpolation := Self.interpolation s; Self.flipy := Self.flipy s;
  Self.optimize := Self.optimize s; Self._cache := Self._cache s;
  Self._zorder := z;
  Self.rgbmap := Self.rgbmap s; Self.cuts := Self.cuts s;
  Self.autocuts := Self.autocuts s;
  Self.made_callbacks := Self.made_callbacks s
|}.

Definition get_zorder (self : Self.t E) : Z := Self._zorder self.

(** A call that an image object makes on a viewer. *)
Inductive viewer_call : Type :=
| reorder_layers
| redraw (whence : Q).

(** [set_zorder]: the calls it makes, each with the viewer it is made on.
    The viewers are those of the cache dictionary; the order among viewers
    is the order of the dictionary and is not used below. *)
Definition set_zorder (zorder : Z) (self : Self.t E)
  : Self.t E * list (positive * viewer_call) :=
  (with_zorder zorder self,
   flat_map (fun viewer => [(viewer, reorder_layers); (viewer, redraw 2)])
     (map fst (map_to_list (Self._cache self)))).

(** *** [draw]

    The attributes that only [draw] reads. *)
Record outline : Type := { linewidth : Z; showcap : bool }.

(** What [draw] asks of the viewer and of the renderer. *)
Inductive draw_call : Type :=
| viewer_redraw (whence : Q)
| setup_cr
| draw_polygon (cpoints : list (Q * Q))
| draw_caps (cpoints : list (Q * Q)).

(** [get_cpoints] is the method of the base class. *)
Definition draw (get_cpoints : Self.t E -> Viewer.t E -> list (Q * Q))
    (o : outline) (self : Self.t E) (viewer : Viewer.t E)
  : Self.t E * list draw_call :=
  let '(cache, self) := get_cache self viewer in
  let '(cache, calls) :=
    if negb (Cache.drawn cache)
    then (Cache.set_drawn true cache, [viewer_redraw 2])
    else (cache, []) in
  let self := store viewer cache self in
  let cpoints := get_cpoints self viewer in
  let calls := calls ++ [setup_cr] in
  let calls := if 0 <? linewidth o then calls ++ [draw_polygon cpoints] else calls in
  let calls := if showcap o then calls ++ [draw_caps cpoints] else calls in
  (self, calls).

(** *** The image, the corners and the handles *)

Definition get_image (self : Self.t E) : option (image_t E) := Self.image self.

Definition get_points (self : Self.t E) : option (list (Q * Q)) :=
  match get_coords self with
  | None => None
  | Some (x1, y1, x2, y2) => Some [(x1, y1); (x2, y1); (x2, y2); (x1, y2)]
  end.

(** [contains_pts]: one boolean for each point.  Line 279 unpacks the
    transposed array of the points into its two rows, which raises
    [ValueError] when there is no point, before the box is asked for. *)
Definition contains_pts (self : Self.t E) (pts : list (Q * Q)) : option (list bool) :=
  match pts with
  | [] => None
  | _ :: _ =>
      match get_llur self with
      | None => None
      | Some (x1, y1, x2, y2) =>
          Some (map (fun p : Q * Q =>
                       (Qle_bool x1 p.1 && Qle_bool p.1 x2)
                       && (Qle_bool y1 p.2 && Qle_bool p.2 y2)) pts)
      end
  end.

(** The handles of an edit: [MovePoint] and [Point] of the base module. *)
Inductive edit_point : Type :=
| MovePoint (x y : Q)
| Point (x y : Q).

Definition edit_point_xy (p : edit_point) : Q * Q :=
  match p with MovePoint x y => (x, y) | Point x y => (x, y) end.

Definition get_edit_points (self : Self.t E) (viewer : Viewer.t E)
  : option (list edit_point) :=
  match get_coords self with
  | None => None
  | Some (x1, y1, x2, y2) =>
      match get_center_pt self with
      | None => None
      | Some (cx, cy) =>
          Some [MovePoint cx cy;
                Point x2 ((y1 + y2) / 2)%Q;
                Point ((x1 + x2) / 2)%Q y2;
                Point x2 y2]
      end
  end.

(** *** Scaling *)

(** [scale_by_factors(factors)]: [scale_x, scale_y = factors[:2]] raises
    [ValueError] when there are fewer than two factors. *)
Definition scale_by_factors (factors : list Q) : method E unit :=
  match factors with
  | scale_x :: scale_y :: _ =>
      modify (fun self => Self.set_scale_x (Self.scale_x self * scale_x)%Q self);;
      modify (fun self => Self.set_scale_y (Self.scale_y self * scale_y)%Q self);;
      modify reset_optimize
  | _ =>
      raise (Py.ValueError
               ("not enough values to unpack (expected 2, got "
                +:+ pretty (length factors) +:+ ")"))
  end.

(** [NormImageP.scale_by(scale_x, scale_y)] *)
Definition NormImageP_scale_by (scale_x scale_y : Q) (self : Self.t E) : Self.t E :=
  let self := Self.set_scale_x (Self.scale_x self * scale_x)%Q self in
  let self := Self.set_scale_y (Self.scale_y self * scale_y)%Q self in
  reset_optimize self.

End MoreMethods.

(** ** Statements about the stages of a draw *)

Section MoreStatements.
Context {E : Collab}.

(** An entry with a colour array has the index array it was made from. *)
Definition coherent (c : Cache.entry E) : Prop :=
  is_Some (Cache.rgbarr c) -> is_Some (Cache.prergb c).

Definition all_coherent (self : Self.t E) : Prop :=
  forall v c, Self._cache self !! v = Some c -> coherent c.

(** A stage in a trace, when it was entered. *)
Definition entered (b : bool) (stage : event E) : list (event E) :=
  if b then [stage] else [].

(** The image of the object is entirely in view of the viewer: the clip
    gives back the whole image at the place of the object. *)
Definition in_full_view (self : Self.t E) (viewer : Viewer.t E) (img : image_t E)
  : Prop :=
  merge_clip self viewer img
  = (to_data E (Self.x self, Self.y self), (0, 0)%Q,
     (inject_Z (img_width E img - 1), inject_Z (img_height E img - 1))).

(** The calls made on one viewer, in order. *)
Definition calls_on (viewer : positive) (calls : list (positive * viewer_call))
  : list viewer_call :=
  map snd (filter (fun p => bool_decide (p.1 = viewer)) calls).

(** The calls of [draw] after the request for a redraw. *)
Definition strokes (o : outline) (cpoints : list (Q * Q)) : list draw_call :=
  [setup_cr]
  ++ (if 0 <? linewidth o then [draw_polygon cpoints] else [])
  ++ (if showcap o then [draw_caps cpoints] else []).

(** A viewer with another colour mapper, auto-cuts object and cut
    levels, and otherwise the same. *)
Definition with_visuals (m : rgbmap_t E) (a : autocuts_t E) (cuts : Q * Q)
    (v : Viewer.t E) : Viewer.t E := {|
  Viewer.ident := Viewer.ident v;
  Viewer.get_draw_rect := Viewer.get_draw_rect v;
  Viewer.get_scale_xy := Viewer.get_scale_xy v;
  Viewer.get_pan := Viewer.get_pan v;
  Viewer.data_off := Viewer.data_off v;
  Viewer.get_rgb_order := Viewer.get_rgb_order v;
  Viewer.get_rgbmap := m;
  Viewer.get_settings := Viewer.get_settings v;
  Viewer.autocuts := a;
  Viewer.t_cuts := cuts
|}.

(** The corners of a polygon. *)
Definition corners (rect : BBox.polygon) : list (Q * Q) :=
  BBox.first_pt rect :: BBox.more_pts rect.

End MoreStatements.

(** * Properties *)

(** ** The cache dictionary *)

Section CacheFacts.
Context {E : Collab}.
Implicit Types (self : Self.t E) (viewer : Viewer.t E) (c : Cache.entry E).

Lemma reset_cache_is_reset self c : is_reset self (_reset_cache self c).
Proof.
  unfold is_reset, _reset_cache.
  destruct (Self.kind self); cbn; repeat split; intros; congruence.
Qed.

Lemma reset_optimize_cache self :
  Self._cache (reset_optimize self) = _reset_cache self <$> Self._cache self.
Proof. reflexivity. Qed.

Lemma reset_optimize_lookup self v :
  Self._cache (reset_optimize self) !! v = _reset_cache self <$> (Self._cache self !! v).
Proof. rewrite reset_optimize_cache. apply lookup_fmap. Qed.

(** [reset_optimize] resets the entry of every viewer and leaves the set
    of viewers. *)
Lemma reset_optimize_resets self : caches_reset self (reset_optimize self).
Proof.
  split.
  - intros v. rewrite reset_optimize_lookup. apply fmap_is_Some.
  - intros v c. rewrite reset_optimize_lookup.
    destruct (Self._cache self !! v) as [c0|]; cbn; [|discriminate].
    intros [= <-]. apply reset_cache_is_reset.
Qed.

(** The class of the object decides [_reset_cache]; the attributes that
    an edit changes do not. *)
Lemma caches_reset_kind self0 self self' :
  Self.kind self0 = Self.kind self ->
  Self._cache self0 = Self._cache self ->
  caches_reset self0 self' -> caches_reset self self'.
Proof.
  intros Hk Hc [Hdom Hres]. split.
  - intros v. rewrite <- Hc. apply Hdom.
  - intros v c Hv. destruct (Hres v c Hv) as (H1 & H2 & H3 & H4).
    repeat split; try assumption; apply H4; congruence.
Qed.

End CacheFacts.

(** ** Rotation and editing *)

Section Editing.
Context {E : Collab}.
Implicit Types (self : Self.t E) (pt : Q * Q) (detail : edit_detail E).

(** C9. For every image object, of the raw or of the normalised class,
    and every angle and offsets, [rotate] raises [ValueError]; the object
    is as it was, so nothing is rotated. *)
Theorem rotate_always_raises self (theta xoff yoff : Q) :
  rotate theta xoff yoff self
  = (Py.Raised (Py.ValueError "Images cannot be rotated"), self).
Proof.
  unfold rotate. unfold raise.
  reflexivity.
Qed.

(** C10. With an index outside 0..3, [set_edit_point] raises before it
    changes anything: the object that the call leaves is the object it
    got, with its position, its scales and every cache entry, so no
    cache is reset. *)
Theorem set_edit_point_bad_index_keeps_object self (i : Z) pt detail :
  ~ (0 <= i <= 3) ->
  set_edit_point i pt detail self
  = (Py.Raised (Py.ValueError ("No point corresponding to index " +:+ pretty i)),
     self).
Proof.
  intros Hi. unfold set_edit_point.
  destruct (Z.eqb_spec i 0); [lia|].
  destruct (Z.eqb_spec i 1); [lia|].
  destruct (Z.eqb_spec i 2); [lia|].
  destruct (Z.eqb_spec i 3); [lia|].
  reflexivity.
Qed.

(** C8. [set_edit_point] raises for every index outside 0..3, and with
    index 0 also when [get_center_pt] raises (there is no image, or a
    scaled size is not finite); the object is then as it was.  Otherwise
    the call returns, changes no attribute but position and scales, and
    resets the cache entry of every viewer: index 0 moves the position by
    the offset that brings the centre onto [pt] and leaves both scales;
    index 1 sets [scale_x] and leaves the position and [scale_y]; index 2
    sets [scale_y] and leaves the position and [scale_x]; index 3 sets
    both scales and leaves the position. *)
Theorem set_edit_point_contract self (i : Z) pt detail :
  let r := set_edit_point i pt detail self in
  let self' := r.2 in
  let factors := calc_dual_scale_from_pt E pt detail in
  (~ (0 <= i <= 3) -> Py.is_raised r.1 = true)
  /\ (i = 0 -> get_center_pt self = None ->
      Py.is_raised r.1 = true /\ self' = self)
  /\ (0 <= i <= 3 -> (i = 0 -> is_Some (get_center_pt self)) ->
      r.1 = Py.Returned tt
      /\ same_but_geometry self self'
      /\ caches_reset self self')
  /\ (i = 0 -> forall ctr_x ctr_y, get_center_pt self = Some (ctr_x, ctr_y) ->
      position self'
      = move_delta_pt E (position self) (pt.1 - ctr_x, pt.2 - ctr_y)%Q
      /\ Self.scale_x self' = Self.scale_x self
      /\ Self.scale_y self' = Self.scale_y self)
  /\ (i = 1 ->
      Self.scale_x self' = (detail_scale_x E detail * factors.1)%Q
      /\ position self' = position self
      /\ Self.scale_y self' = Self.scale_y self)
  /\ (i = 2 ->
      Self.scale_y self' = (detail_scale_y E detail * factors.2)%Q
      /\ position self' = position self
      /\ Self.scale_x self' = Self.scale_x self)
  /\ (i = 3 ->
      Self.scale_x self' = (detail_scale_x E detail * factors.1)%Q
      /\ Self.scale_y self' = (detail_scale_y E detail * factors.2)%Q
      /\ position self' = position self).
Proof.
  cbv zeta. unfold set_edit_point.
  destruct (calc_dual_scale_from_pt E pt detail) as [sx sy] eqn:Hf.
  split; [|split; [|split; [|split; [|repeat split; try (subst i; reflexivity)]]]].
  - intros Hi.
    destruct (Z.eqb_spec i 0); [lia|].
    destruct (Z.eqb_spec i 1); [lia|].
    destruct (Z.eqb_spec i 2); [lia|].
    destruct (Z.eqb_spec i 3); [lia|].
    reflexivity.
  - intros -> Hc. cbn. unfold mbind, method_bind, self_move_to_pt.
    rewrite Hc. destruct (Self.image self); split; reflexivity.
  - intros Hi Hctr.
    assert (i = 0 \/ i = 1 \/ i = 2 \/ i = 3) as [-> | [-> | [-> | ->]]] by lia.
    1: { destruct (Hctr eq_refl) as [[ctr_x ctr_y] Hc].
         cbn. unfold mbind, method_bind, self_move_to_pt. rewrite Hc. cbn.
         split; [reflexivity|]. split; [repeat split|].
         eapply caches_reset_kind; [| |apply reset_optimize_resets]; reflexivity. }
    all: cbn; (split; [reflexivity|]);
      (split; [repeat split|]);
      (eapply caches_reset_kind; [| |apply reset_optimize_resets]; reflexivity).
  - intros -> ctr_x ctr_y Hc.
    unfold position, mbind, method_bind, self_move_to_pt. cbn. rewrite Hc. cbn.
    destruct (move_delta_pt E _ _); repeat split; reflexivity.
Qed.

End Editing.

Lemma set_edit_point_bad_index_keeps_object_witness :
  set_edit_point 7 (3, 4)%Q Sample.detail (Sample.drawn_object)
  = (Py.Raised (Py.ValueError ("No point corresponding to index " +:+ pretty 7)),
     Sample.drawn_object).
Proof.
  apply (set_edit_point_bad_index_keeps_object
           (Sample.drawn_object) 7 (3, 4)%Q Sample.detail).
  lia.
Defined.

Lemma set_edit_point_contract_witness :
  let self := Sample.drawn_object in
  Py.is_raised (set_edit_point 4 (3, 4)%Q Sample.detail self).1 = true
  /\ (set_edit_point 0 (3, 4)%Q Sample.detail self).1 = Py.Returned tt
  /\ caches_reset self (set_edit_point 0 (3, 4)%Q Sample.detail self).2
  /\ Self.scale_x (set_edit_point 1 (3, 4)%Q Sample.detail self).2 = (2 * 3)%Q
  /\ Self.scale_y (set_edit_point 2 (3, 4)%Q Sample.detail self).2 = (2 * 4)%Q
  /\ get_center_pt self = Some (19 # 2, 19 # 2)%Q
  /\ position (set_edit_point 0 (3, 4)%Q Sample.detail self).2 = (-3 # 2, -1 # 2)%Q
  /\ position (set_edit_point 3 (3, 4)%Q Sample.detail self).2 = position self
  /\ Py.is_raised (set_edit_point 0 (3, 4)%Q Sample.detail
                     (set_image self None)).1 = true.
Proof.
  intros self.
  pose proof (set_edit_point_contract self 4 (3, 4)%Q Sample.detail) as (H4 & _).
  pose proof (set_edit_point_contract self 1 (3, 4)%Q Sample.detail)
    as (_ & _ & _ & _ & H1 & _).
  pose proof (set_edit_point_contract self 2 (3, 4)%Q Sample.detail)
    as (_ & _ & _ & _ & _ & H2 & _).
  pose proof (set_edit_point_contract self 0 (3, 4)%Q Sample.detail)
    as (_ & _ & H0 & H0' & _).
  pose proof (set_edit_point_contract self 3 (3, 4)%Q Sample.detail)
    as (_ & _ & _ & _ & _ & _ & H3).
  pose proof (set_edit_point_contract (set_image self None) 0 (3, 4)%Q Sample.detail)
    as (_ & Hn & _).
  assert (Hctr : get_center_pt self = Some (19 # 2, 19 # 2)%Q) by reflexivity.
  split; [apply H4; lia|].
  destruct H0 as (Hr & _ & Hc); [lia|intros _; rewrite Hctr; eexists; reflexivity|].
  destruct (H1 eq_refl) as (Hx & _).
  destruct (H2 eq_refl) as (Hy & _).
  destruct (H0' eq_refl _ _ Hctr) as (Hp & _).
  destruct (H3 eq_refl) as (_ & _ & Hq).
  destruct (Hn eq_refl eq_refl) as (Hnone & _).
  exact (conj Hr (conj Hc (conj Hx (conj Hy (conj Hctr (conj Hp (conj Hq Hnone))))))).
Defined.

(** C8, as the claim words it, fails.  The image of the object is taken
    away with [set_image(None)]; index 0 is a valid index, but the centre
    that [move_to_pt] moves is that of the image: the call raises
    [AttributeError], the position stays (5, 5), and no edit is applied. *)
Lemma edit_point_zero_without_image_raises :
  let self := set_image Sample.drawn_object None in
  set_edit_point 0 (3, 4)%Q Sample.detail self = (Py.Raised Py.AttributeError, self)
  /\ position self = (5, 5)%Q
  /\ ~ edit_applied self 0 (3, 4)%Q Sample.detail.
Proof.
  split; [reflexivity|]. split; [reflexivity|].
  intros [Hr _]. discriminate Hr.
Qed.

(** ** Replacing the image *)

Section SetImage.
Context {E : Collab}.
Implicit Types (self : Self.t E) (image : option (image_t E)).

(** C7. [set_image] on a normalised image object makes the ['image-set']
    callback once, with the new image: the callbacks made are those made
    before and this one.  Every viewer in the cache dictionary keeps its
    entry, and in it [cutout], [alpha], [prergb] and [rgbarr] are [None]. *)
Theorem set_image_fires_once_and_clears self image :
  Self.kind self = normimage_kind ->
  let self' := set_image self image in
  Self.image self' = image
  /\ Self.made_callbacks self'
     = Self.made_callbacks self ++ [("image-set"%string, image)]
  /\ (forall v, is_Some (Self._cache self' !! v) <-> is_Some (Self._cache self !! v))
  /\ (forall v c, Self._cache self' !! v = Some c ->
        Cache.cutout c = None /\ Cache.alpha c = None
        /\ Cache.prergb c = None /\ Cache.rgbarr c = None).
Proof.
  intros Hk self'.
  assert (Hs : self' = NormImageP_set_image self image)
    by (unfold self', set_image; rewrite Hk; reflexivity).
  rewrite Hs. clear self' Hs.
  split; [reflexivity|]. split; [reflexivity|].
  pose proof (reset_optimize_resets (Self.set_image image self)) as [Hdom Hres].
  split.
  - intros v. apply (Hdom v).
  - intros v c Hv. destruct (Hres v c Hv) as (H1 & _ & _ & H4).
    destruct (H4 Hk) as (H5 & H6 & H7). auto.
Qed.

End SetImage.

Lemma set_image_fires_once_and_clears_witness :
  let self' := set_image (Sample.drawn_object) None in
  Self.image self' = None
  /\ Self.made_callbacks self' = [("image-set"%string, None)]
  /\ (forall v, is_Some (Self._cache self' !! v)
                <-> is_Some (Self._cache (Sample.drawn_object) !! v))
  /\ (forall v c, Self._cache self' !! v = Some c ->
        Cache.cutout c = None /\ Cache.alpha c = None
        /\ Cache.prergb c = None /\ Cache.rgbarr c = None).
Proof.
  apply (set_image_fires_once_and_clears (Sample.drawn_object) None).
  reflexivity.
Defined.

(** ** The bounding box of the viewport *)

Section Rounding.

(** [int] of a number that is not negative is its floor. *)
Lemma int_of_nonnegative (x : Q) : (0 <= x)%Q -> Py.int x = Py.floor x.
Proof.
  destruct x as [n d]. unfold Py.int, Py.floor, Qle. cbn. intros Hn.
  apply Z.quot_div_nonneg; lia.
Qed.

(** [int] of a negative number is its ceiling. *)
Lemma int_of_negative (x : Q) : (x < 0)%Q -> Py.int x = Py.ceil x.
Proof.
  destruct x as [n d]. unfold Py.int, Py.ceil, Qceiling, Qlt. cbn. intros Hn.
  replace n with (- - n) at 1 by lia.
  rewrite Z.quot_opp_l by lia.
  rewrite Z.quot_div_nonneg by lia. reflexivity.
Qed.

(** The greatest coordinates are rounded up, whatever their sign. *)
Lemma bbox_max_is_ceiling (rect : BBox.polygon) :
  BBox.xmax rect = Py.ceil (BBox.greatest_x rect)
  /\ BBox.ymax rect = Py.ceil (BBox.greatest_y rect).
Proof. split; reflexivity. Qed.

(** The least coordinates are rounded down when they are not negative. *)
Lemma bbox_min_is_floor_of_nonnegative (rect : BBox.polygon) :
  (0 <= BBox.least_x rect)%Q -> (0 <= BBox.least_y rect)%Q ->
  BBox.xmin rect = Py.floor (BBox.least_x rect)
  /\ BBox.ymin rect = Py.floor (BBox.least_y rect).
Proof. intros Hx Hy. split; apply int_of_nonnegative; assumption. Qed.

(** The least coordinates are rounded up when they are negative. *)
Lemma bbox_min_is_ceiling_of_negative (rect : BBox.polygon) :
  (BBox.least_x rect < 0)%Q -> (BBox.least_y rect < 0)%Q ->
  BBox.xmin rect = Py.ceil (BBox.least_x rect)
  /\ BBox.ymin rect = Py.ceil (BBox.least_y rect).
Proof. intros Hx Hy. split; apply int_of_negative; assumption. Qed.

(** C5. The draw rectangle with the corners (-1/2, -1/2), (99/2, -1/2),
    (99/2, 99/2) and (-1/2, 99/2) has the least coordinates -1/2, whose
    floor is -1; [_common_draw] takes [xmin] and [ymin] to be 0, the
    least coordinates rounded toward zero, while [xmax] and [ymax] are
    the ceiling 50 of the greatest ones. *)
Theorem bbox_of_negative_corner :
  let rect := Viewer.get_draw_rect Sample.viewer in
  (BBox.least_x rect == -1 # 2)%Q /\ (BBox.least_y rect == -1 # 2)%Q
  /\ Py.floor (BBox.least_x rect) = -1 /\ Py.floor (BBox.least_y rect) = -1
  /\ BBox.xmin rect = 0 /\ BBox.ymin rect = 0
  /\ BBox.xmax rect = 50 /\ BBox.ymax rect = 50.
Proof. vm_compute. repeat split; reflexivity. Qed.

End Rounding.

(** ** The interpolation method of the cutout request *)

Section Interpolation.
Context {E : Collab}.
Implicit Types (self : Self.t E) (viewer : Viewer.t E) (m d : string).

(** C6, as the code has it.  The method of the cutout request is the
    setting of the object when the object has one, else the default in
    the settings of the viewer, else ["basic"]; a method so found that is
    not one of [trcalc.interpolation_methods] is replaced by ["basic"].
    So a setting of the object that is not a valid method gives
    ["basic"], whatever the default of the viewer.  The choice is a value
    in every case: it is a valid method or ["basic"], and nothing is
    raised. *)
Theorem choose_interp_cases self viewer :
  let chosen := choose_interp self viewer in
  let viewer_default := Viewer.get_settings viewer !! "interpolation"%string in
  (forall m, Self.interpolation self = Some m ->
     m ∈ interpolation_methods E -> chosen = m)
  /\ (forall m, Self.interpolation self = Some m ->
        m ∉ interpolation_methods E -> chosen = "basic"%string)
  /\ (forall d, Self.interpolation self = None -> viewer_default = Some d ->
        d ∈ interpolation_methods E -> chosen = d)
  /\ (forall d, Self.interpolation self = None -> viewer_default = Some d ->
        d ∉ interpolation_methods E -> chosen = "basic"%string)
  /\ (Self.interpolation self = None -> viewer_default = None ->
        chosen = "basic"%string)
  /\ (chosen ∈ interpolation_methods E \/ chosen = "basic"%string).
Proof.
  cbv zeta. unfold choose_interp.
  repeat split.
  - intros m -> Hm. rewrite bool_decide_eq_true_2; auto.
  - intros m -> Hm. rewrite bool_decide_eq_false_2; auto.
  - intros d -> -> Hd. cbn. rewrite bool_decide_eq_true_2; auto.
  - intros d -> -> Hd. cbn. rewrite bool_decide_eq_false_2; auto.
  - intros -> ->. cbn. case_bool_decide; reflexivity.
  - case_bool_decide; auto.
Qed.

(** The code and the cascade of three agree when the object has no
    setting of its own or a valid one. *)
Lemma choose_interp_is_cascade self viewer :
  (forall m, Self.interpolation self = Some m -> m ∈ interpolation_methods E) ->
  choose_interp self viewer = cascade_interp self viewer.
Proof.
  intros Hv. unfold choose_interp, cascade_interp.
  destruct (Self.interpolation self) as [m|].
  - rewrite bool_decide_eq_true_2 by auto. reflexivity.
  - destruct (Viewer.get_settings viewer !! "interpolation"%string) as [d|]; cbn.
    + reflexivity.
    + case_bool_decide; reflexivity.
Qed.

End Interpolation.

Lemma choose_interp_cases_witness :
  choose_interp (Sample.object_with_interpolation "bilinear") Sample.viewer
  = "bilinear"%string
  /\ choose_interp (Sample.object_with_interpolation "lanczos") Sample.viewer
     = "basic"%string
  /\ choose_interp (Sample.object image_kind 5 5) Sample.viewer = "bilinear"%string.
Proof.
  pose proof (choose_interp_cases
                (Sample.object_with_interpolation "bilinear") Sample.viewer)
    as (H1 & _).
  pose proof (choose_interp_cases
                (Sample.object_with_interpolation "lanczos") Sample.viewer)
    as (_ & H2 & _).
  pose proof (choose_interp_cases (Sample.object image_kind 5 5) Sample.viewer)
    as (_ & _ & H3 & _).
  split; [|split].
  - apply (H1 "bilinear"%string); [reflexivity|].
    apply (bool_decide_unpack _). vm_compute. exact I.
  - apply (H2 "lanczos"%string); [reflexivity|].
    apply (bool_decide_unpack _). vm_compute. exact I.
  - apply (H3 "bilinear"%string); [reflexivity | reflexivity |].
    apply (bool_decide_unpack _). vm_compute. exact I.
Defined.

(** C6, as the claim words it, fails.  The object asks for ["lanczos"],
    which is no method of [trcalc]; the default of the viewer, ["bilinear"],
    is one.  The cascade of three gives ["bilinear"]; the code gives
    ["basic"]. *)
Lemma invalid_setting_skips_viewer_default :
  let self := Sample.object_with_interpolation "lanczos" in
  cascade_interp self Sample.viewer = "bilinear"%string
  /\ choose_interp self Sample.viewer = "basic"%string
  /\ choose_interp self Sample.viewer <> cascade_interp self Sample.viewer.
Proof.
  split; [reflexivity|]. split; [reflexivity|]. discriminate.
Qed.

(** ** Drawing *)

Section DrawFacts.
Context {E : Collab}.
Implicit Types (self : Self.t E) (viewer : Viewer.t E) (dst : dstarr E)
  (c : Cache.entry E) (w : Q).

Lemma Qle_bool_false (a b : Q) : (b < a)%Q -> Qle_bool a b = false.
Proof.
  intros H. destruct (Qle_bool a b) eqn:Hle; [|reflexivity].
  apply Qle_bool_iff in Hle. destruct (Qle_not_lt _ _ Hle H).
Qed.

Lemma Qle_bool_true (a b : Q) : (a <= b)%Q -> Qle_bool a b = true.
Proof. intros H. apply Qle_bool_iff. exact H. Qed.


Lemma guards_above_two w :
  (2 < w)%Q ->
  Qle_bool w 0 = false /\ Qle_bool w 1 = false /\ Qle_bool w 2 = false.
Proof.
  intros Hw. split; [|split]; apply Qle_bool_false.
  - apply (Qlt_trans 0 2 w); [reflexivity | exact Hw].
  - apply (Qlt_trans 1 2 w); [reflexivity | exact Hw].
  - exact Hw.
Qed.

Lemma get_cache_entry self viewer : (get_cache self viewer).1 = current_entry self viewer.
Proof.
  unfold get_cache, current_entry.
  destruct (Self._cache self !! Viewer.ident viewer); reflexivity.
Qed.

Lemma set_cache_same self : Self.set_cache (Self._cache self) self = self.
Proof. destruct self; reflexivity. Qed.

Lemma store_get_cache self viewer c :
  store viewer c (get_cache self viewer).2 = store viewer c self.
Proof.
  unfold get_cache, store.
  destruct (Self._cache self !! Viewer.ident viewer); cbn; [reflexivity|].
  rewrite insert_insert_eq. destruct self; reflexivity.
Qed.

Lemma store_lookup self viewer c :
  Self._cache (store viewer c self) !! Viewer.ident viewer = Some c.
Proof. cbn. apply lookup_insert_eq. Qed.

Lemma current_entry_store self viewer c :
  current_entry (store viewer c self) viewer = c.
Proof. unfold current_entry. rewrite store_lookup. reflexivity. Qed.

Lemma store_store self viewer c c' :
  store viewer c' (store viewer c self) = store viewer c' self.
Proof. unfold store. cbn. rewrite insert_insert_eq. destruct self; reflexivity. Qed.

(** The stages read the attributes of the object, not its dictionary. *)
Lemma get_cache_attributes self viewer :
  exists m, (get_cache self viewer).2 = Self.set_cache m self.
Proof.
  unfold get_cache.
  destruct (Self._cache self !! Viewer.ident viewer).
  - exists (Self._cache self). cbn. symmetry. apply set_cache_same.
  - eexists. reflexivity.
Qed.

Lemma common_draw_set_cache m self viewer dst c w :
  _common_draw (Self.set_cache m self) viewer dst c w = _common_draw self viewer dst c w.
Proof. destruct self; reflexivity. Qed.

Lemma normalise_set_cache m self viewer img w cut c tr :
  normalise (Self.set_cache m self) viewer img w cut c tr
  = normalise self viewer img w cut c tr.
Proof. destruct self; reflexivity. Qed.

Lemma common_draw_same_shape self viewer dst dst' c w :
  shape dst' = shape dst ->
  _common_draw self viewer dst' c w = _common_draw self viewer dst c w.
Proof. intros Hs. unfold _common_draw. rewrite Hs. reflexivity. Qed.

(** [ImageP.draw_image] on the entry of the viewer. *)
Lemma ImageP_draw_image_entry self viewer dst w img :
  Self.image self = Some img ->
  ImageP_draw_image self viewer dst w =
    let r := _common_draw self viewer dst (current_entry self viewer) w in
    match Cache.cutout r.1 with
    | None => (store viewer r.1 self, dst, r.2)
    | Some cut =>
        let dst_order := Viewer.get_rgb_order viewer in
        let image_order := get_order E img in
        (store viewer r.1 self,
         composite dst (Cache.cvs_pos r.1) cut dst_order image_order (Self.alpha self),
         r.2 ++ [overlay (Cache.cvs_pos r.1) cut dst_order image_order (Self.alpha self)])
    end.
Proof.
  intros Hi. unfold ImageP_draw_image. rewrite Hi.
  pose proof (get_cache_entry self viewer) as He.
  pose proof (store_get_cache self viewer) as Hs.
  destruct (get_cache_attributes self viewer) as [m Hm].
  destruct (get_cache self viewer) as [c0 self0]. cbn in He, Hs, Hm. subst c0.
  rewrite Hm at 1. rewrite common_draw_set_cache.
  cbv zeta.
  destruct (_common_draw self viewer dst (current_entry self viewer) w) as [c1 tr].
  cbn. rewrite Hs. rewrite Hm. destruct self; reflexivity.
Qed.

(** [NormImageP.draw_image] on the entry of the viewer. *)
Lemma NormImageP_draw_image_entry self viewer dst w img :
  Self.image self = Some img ->
  NormImageP_draw_image self viewer dst w =
    let r := _common_draw self viewer dst (current_entry self viewer) w in
    match Cache.cutout r.1 with
    | None => (store viewer r.1 self, dst, r.2)
    | Some cut =>
        let n := normalise self viewer img w cut r.1 r.2 in
        let dst_order := Viewer.get_rgb_order viewer in
        (store viewer n.1.1 self,
         composite dst (Cache.cvs_pos n.1.1) n.1.2 dst_order dst_order (Self.alpha self),
         n.2 ++ [overlay (Cache.cvs_pos n.1.1) n.1.2 dst_order dst_order (Self.alpha self)])
    end.
Proof.
  intros Hi. unfold NormImageP_draw_image. rewrite Hi.
  pose proof (get_cache_entry self viewer) as He.
  pose proof (store_get_cache self viewer) as Hs.
  destruct (get_cache_attributes self viewer) as [m Hm].
  destruct (get_cache self viewer) as [c0 self0]. cbn in He, Hs, Hm. subst c0.
  rewrite Hm at 1. rewrite common_draw_set_cache.
  cbv zeta.
  destruct (_common_draw self viewer dst (current_entry self viewer) w) as [c1 tr].
  cbn. destruct (Cache.cutout c1) as [cut|].
  - rewrite Hm at 1. rewrite normalise_set_cache.
    destruct (normalise self viewer img w cut c1 tr) as [[c2 rgbarr] tr2].
    cbn. rewrite Hs. rewrite Hm. destruct self; reflexivity.
  - rewrite Hs. reflexivity.
Qed.

End DrawFacts.

Section OffScreen.
Context {E : Collab}.
Implicit Types (self : Self.t E) (viewer : Viewer.t E) (dst : dstarr E)
  (c : Cache.entry E) (w : Q).

Lemma no_cutout_current_entry self viewer :
  no_cutout self viewer -> Cache.cutout (current_entry self viewer) = None.
Proof.
  unfold no_cutout, current_entry. intros H.
  destruct (Self._cache self !! Viewer.ident viewer) as [c|]; cbn.
  - apply H. reflexivity.
  - unfold _reset_cache. destruct (Self.kind self); reflexivity.
Qed.

(** The cutout stage, when it runs on a clip without extent, sets the
    cutout to [None] and does nothing else. *)
Lemma common_draw_offscreen self viewer dst c w img d a1 b1 a2 b2 :
  Self.image self = Some img ->
  (w <= 0)%Q \/ Cache.cutout c = None \/ Self.optimize self = false ->
  merge_clip self viewer img = (d, (a1, b1), (a2, b2)) ->
  (a2 - a1 <= 0)%Q \/ (b2 - b1 <= 0)%Q ->
  _common_draw self viewer dst c w = (Cache.set_cutout None c, [cutout_stage]).
Proof.
  intros Hi Hg Hm Hoff. unfold _common_draw. rewrite Hi, Hm.
  assert (Hguard : Qle_bool w 0
                   || match Cache.cutout c with None => true | Some _ => false end
                   || negb (Self.optimize self) = true).
  { destruct Hg as [Hw | [Hc | Ho]].
    - rewrite (Qle_bool_true _ _ Hw). reflexivity.
    - rewrite Hc. apply orb_true_iff. left. apply orb_true_r.
    - rewrite Ho. apply orb_true_r. }
  rewrite Hguard. destruct d as [dx dy].
  assert (Hext : Qle_bool (a2 - a1) 0 || Qle_bool (b2 - b1) 0 = true).
  { destruct Hoff as [Ha | Hb].
    - rewrite (Qle_bool_true _ _ Ha). reflexivity.
    - rewrite (Qle_bool_true _ _ Hb). apply orb_true_r. }
  rewrite Hext. reflexivity.
Qed.

(** C2, as the code has it.  A draw of an image object of either class
    that runs the cutout stage (the image is there, and [whence <= 0] or
    the viewer has no cutout in the cache or [optimize] is off) and finds
    a clipped source region without extent in some axis
    ([a2 - a1 <= 0] or [b2 - b1 <= 0]) leaves [None] as the cutout of the
    viewer's entry, returns, and makes no call of the compositor: the
    destination is as it was. *)
Theorem offscreen_draw_is_absent self viewer dst w img d a1 b1 a2 b2 :
  Self.image self = Some img ->
  (w <= 0)%Q \/ no_cutout self viewer \/ Self.optimize self = false ->
  merge_clip self viewer img = (d, (a1, b1), (a2, b2)) ->
  (a2 - a1 <= 0)%Q \/ (b2 - b1 <= 0)%Q ->
  let r := draw_image self viewer dst w in
  (exists c, Self._cache (object_after r) !! Viewer.ident viewer = Some c
             /\ Cache.cutout c = None)
  /\ overlays (trace_of r) = []
  /\ canvas_after r = dst.
Proof.
  intros Hi Hg Hm Hoff r.
  assert (Hc : _common_draw self viewer dst (current_entry self viewer) w
               = (Cache.set_cutout None (current_entry self viewer), [cutout_stage])).
  { apply (common_draw_offscreen _ _ _ _ _ img d a1 b1 a2 b2); try assumption.
    destruct Hg as [Hw | [Hn | Ho]]; auto using no_cutout_current_entry. }
  assert (Hr : r = (store viewer (Cache.set_cutout None (current_entry self viewer)) self,
                    dst, [cutout_stage])).
  { unfold r, draw_image. destruct (Self.kind self).
    - rewrite (ImageP_draw_image_entry _ _ _ _ img Hi). rewrite Hc. reflexivity.
    - rewrite (NormImageP_draw_image_entry _ _ _ _ img Hi). rewrite Hc. reflexivity. }
  rewrite Hr. unfold object_after, canvas_after, trace_of. cbn [fst snd].
  split; [|split; reflexivity].
  eexists. split; [apply store_lookup | reflexivity].
Qed.

End OffScreen.

Lemma offscreen_draw_is_absent_witness :
  let r := draw_image (Sample.object normimage_kind 100 100) Sample.viewer Sample.canvas 3 in
  (exists c, Self._cache (object_after r) !! Viewer.ident Sample.viewer = Some c
             /\ Cache.cutout c = None)
  /\ overlays (trace_of r) = []
  /\ canvas_after r = Sample.canvas.
Proof.
  apply (offscreen_draw_is_absent
           (Sample.object normimage_kind 100 100) Sample.viewer Sample.canvas 3
           Sample.pic (100, 100)%Q 0%Q 0%Q (-50)%Q (-50)%Q).
  - reflexivity.
  - right. left. intros c Hc.
    change (Self._cache (Sample.object normimage_kind 100 100))
      with (∅ : gmap positive (Cache.entry Sample.collab)) in Hc.
    rewrite lookup_empty in Hc. discriminate.
  - reflexivity.
  - left. discriminate.
Defined.

(** C2, as the claim words it, fails.  The viewer draws the object in full,
    then pans until the image is out of sight, and the object is drawn
    again with [whence = 3]: the clip of the image against the viewport has
    no extent, but the cutout stage does not run, the cutout of the first
    draw stays in the cache and is composited. *)
Lemma stale_cutout_is_composited_offscreen :
  ~ offscreen_safe (Sample.drawn_object) Sample.panned Sample.canvas 3.
Proof.
  intros H.
  assert (Hm : merge_clip (Sample.drawn_object) Sample.panned Sample.pic
               = ((199, 199), (194, 194), (9, 9))%Q) by reflexivity.
  assert (Htr : overlays (trace_of (draw_image (Sample.drawn_object)
                                       Sample.panned Sample.canvas 3))
                = [overlay (4, 4) ([10; 20; 30; 255] : ndarray Sample.collab)
                     "RGBA" "RGBA" 1%Q]) by reflexivity.
  destruct (H Sample.pic _ _ _ _ _ eq_refl Hm) as (_ & Hov).
  - left. discriminate.
  - rewrite Htr in Hov. discriminate.
Qed.

Section AlphaReuse.
Context {E : Collab}.
Implicit Types (self : Self.t E) (viewer : Viewer.t E) (dst : dstarr E)
  (c : Cache.entry E) (w : Q) (tr : list (event E)).







End AlphaReuse.


Section Idempotence.
Context {E : Collab}.
Implicit Types (self : Self.t E) (viewer : Viewer.t E) (dst : dstarr E)
  (c : Cache.entry E) (w : Q) (tr : list (event E)).

Lemma overlays_app tr tr' : overlays (tr ++ tr') = overlays tr ++ overlays tr'.
Proof. unfold overlays. apply filter_app. Qed.

Lemma common_draw_overlays self viewer dst c w :
  overlays (_common_draw self viewer dst c w).2 = [].
Proof.
  unfold _common_draw.
  destruct (Self.image self) as [img|]; [|reflexivity].
  destruct (Qle_bool w 0 || _ || _); [|reflexivity].
  destruct (merge_clip self viewer img) as [[[dx dy] [a1 b1]] [a2 b2]].
  destruct (Qle_bool (a2 - a1) 0 || Qle_bool (b2 - b1) 0); [reflexivity|].
  destruct (Viewer.get_scale_xy viewer), (Viewer.get_pan viewer).
  destruct (shape dst) as [[ht wd] dp].
  reflexivity.
Qed.

Lemma normalise_overlays self viewer img w cut c tr :
  overlays (normalise self viewer img w cut c tr).2 = overlays tr.
Proof.
  unfold normalise.
  destruct (Qle_bool w 0 || negb (Self.optimize self));
    [destruct (split_alpha _ _ cut c) as [c' cut']|];
    (match goal with
     | |- context [Cache.prergb ?x] => destruct (Cache.prergb x)
     end;
     [destruct (Qle_bool w 1 || negb (Self.optimize self))|]);
    (match goal with
     | |- context [Cache.rgbarr ?x] => destruct (Cache.rgbarr x)
     end;
     [destruct (Qle_bool w 2 || negb (Self.optimize self))|]);
    cbn [fst snd]; rewrite ?overlays_app; cbn; rewrite ?app_nil_r; reflexivity.
Qed.

(** A draw, in terms of the entry of the viewer. *)
Lemma draw_image_by_entry self viewer dst w img :
  Self.image self = Some img ->
  let r := draw_image self viewer dst w in
  let e := draw_entry self viewer dst img w (current_entry self viewer) in
  object_after r = store viewer e.1 self
  /\ overlays (trace_of r) = overlay_of self viewer e.2
  /\ shape (canvas_after r) = shape dst.
Proof.
  intros Hi. cbv zeta. unfold draw_image, draw_entry, object_after, trace_of, canvas_after.
  pose proof (common_draw_overlays self viewer dst (current_entry self viewer) w) as Hov.
  destruct (Self.kind self).
  - rewrite (ImageP_draw_image_entry _ _ _ _ img Hi). cbv zeta.
    destruct (_common_draw self viewer dst (current_entry self viewer) w) as [c1 tr].
    cbn [fst snd] in *. destruct (Cache.cutout c1) as [cut|]; cbn [fst snd].
    + rewrite overlays_app, Hov. repeat split.
    + repeat split. exact Hov.
  - rewrite (NormImageP_draw_image_entry _ _ _ _ img Hi). cbv zeta.
    destruct (_common_draw self viewer dst (current_entry self viewer) w) as [c1 tr].
    cbn [fst snd] in *. destruct (Cache.cutout c1) as [cut|]; cbn [fst snd].
    + rewrite overlays_app, normalise_overlays, Hov. repeat split.
    + repeat split. exact Hov.
Qed.

Lemma draw_entry_same_attributes m self viewer dst dst' img w c :
  shape dst' = shape dst ->
  draw_entry (Self.set_cache m self) viewer dst' img w c
  = draw_entry self viewer dst img w c.
Proof.
  intros Hs. unfold draw_entry.
  rewrite common_draw_set_cache, (common_draw_same_shape _ _ dst dst' _ _ Hs).
  destruct (Cache.cutout _); [|reflexivity].
  rewrite normalise_set_cache. destruct self; reflexivity.
Qed.

(** The cutout stage does not run on an entry with a cutout when
    [optimize] is on and [whence > 0]. *)
Lemma common_draw_cached self viewer dst c w cut :
  Qle_bool w 0 = false -> Self.optimize self = true ->
  Cache.cutout c = Some cut ->
  _common_draw self viewer dst c w = (c, []).
Proof.
  intros Hw Ho Hc. unfold _common_draw. rewrite Hw, Ho, Hc.
  destruct (Self.image self); reflexivity.
Qed.

(** When the cutout stage runs, the cutout and the position it leaves
    are those it leaves in a fresh entry; the other attributes of the
    entry stay. *)
Lemma common_draw_fresh self viewer dst c w img :
  Self.image self = Some img ->
  Qle_bool w 0
  || match Cache.cutout c with None => true | Some _ => false end
  || negb (Self.optimize self) = true ->
  let c0 := (_common_draw self viewer dst Cache.fresh 0).1 in
  (_common_draw self viewer dst c w).1
  = match Cache.cutout c0 with
    | None => Cache.set_cutout None c
    | Some data => Cache.set_cvs_pos (Cache.cvs_pos c0) (Cache.set_cutout (Some data) c)
    end.
Proof.
  intros Hi Hg. cbv zeta. unfold _common_draw. rewrite Hi, Hg.
  change (Qle_bool 0 0) with true. cbn [orb].
  destruct (merge_clip self viewer img) as [[[dx dy] [a1 b1]] [a2 b2]].
  destruct (Qle_bool (a2 - a1) 0 || Qle_bool (b2 - b1) 0); [reflexivity|].
  destruct (Viewer.get_scale_xy viewer) as [sx sy], (Viewer.get_pan viewer) as [px py].
  destruct (shape dst) as [[ht wd] dp].
  reflexivity.
Qed.

(** The later stages at [whence > 2] with [optimize] on: what is in the
    entry is kept, what is missing is computed. *)
Lemma normalise_cached self viewer img w cut c tr :
  (2 < w)%Q -> Self.optimize self = true ->
  let rgbmap :=
    match Self.rgbmap self with
    | Some m => m
    | None => Viewer.get_rgbmap viewer
    end in
  let idx := default (index_array self viewer rgbmap cut) (Cache.prergb c) in
  let rgbarr :=
    default (colour_map rgbmap (Viewer.get_rgb_order viewer) (get_order E img) idx
               (Cache.alpha c)) (Cache.rgbarr c) in
  (normalise self viewer img w cut c tr).1
  = (Cache.set_rgbarr (Some rgbarr) (Cache.set_prergb (Some idx) c), rgbarr).
Proof.
  intros Hw Ho. destruct (guards_above_two w Hw) as (Ha & Hb & Hc).
  cbv zeta. unfold normalise. rewrite Ha, Hb, Hc, Ho.
  destruct c as [cu al pre rgb dr pos].
  destruct pre, rgb; reflexivity.
Qed.

(** The later stages with [optimize] off: everything is computed from
    the cutout. *)
Lemma normalise_uncached self viewer img w cut c tr :
  Self.optimize self = false ->
  let rgbmap :=
    match Self.rgbmap self with
    | Some m => m
    | None => Viewer.get_rgbmap viewer
    end in
  let s := split_alpha rgbmap (get_order E img) cut c in
  let idx := index_array self viewer rgbmap s.2 in
  let rgbarr :=
    colour_map rgbmap (Viewer.get_rgb_order viewer) (get_order E img) idx
      (Cache.alpha s.1) in
  (normalise self viewer img w cut c tr).1
  = (Cache.set_rgbarr (Some rgbarr) (Cache.set_prergb (Some idx) s.1), rgbarr).
Proof.
  intros Ho. cbv zeta. unfold normalise. rewrite Ho, !orb_true_r.
  destruct (split_alpha _ (get_order E img) cut c) as [c1 cut1].
  cbn [fst snd].
  destruct (Cache.prergb c1); cbn [fst snd];
    match goal with
    | |- context [Cache.rgbarr ?x] => destruct (Cache.rgbarr x)
    end; reflexivity.
Qed.

(** With [optimize] on and [whence > 2], on an entry that has a cutout. *)
Lemma draw_entry_cached self viewer dst img w c cut :
  (2 < w)%Q -> Self.optimize self = true ->
  Cache.cutout c = Some cut ->
  let rgbmap :=
    match Self.rgbmap self with
    | Some m => m
    | None => Viewer.get_rgbmap viewer
    end in
  let idx := default (index_array self viewer rgbmap cut) (Cache.prergb c) in
  let rgbarr :=
    default (colour_map rgbmap (Viewer.get_rgb_order viewer) (get_order E img) idx
               (Cache.alpha c)) (Cache.rgbarr c) in
  draw_entry self viewer dst img w c
  = match Self.kind self with
    | image_kind => (c, Some (Cache.cvs_pos c, cut, get_order E img))
    | normimage_kind =>
        (Cache.set_rgbarr (Some rgbarr) (Cache.set_prergb (Some idx) c),
         Some (Cache.cvs_pos c, rgbarr, Viewer.get_rgb_order viewer))
    end.
Proof.
  intros Hw Ho Hc. cbv zeta.
  destruct (guards_above_two w Hw) as (Ha & _).
  unfold draw_entry.
  rewrite (common_draw_cached _ _ _ c w cut Ha Ho Hc). cbn [fst snd]. rewrite Hc.
  destruct (Self.kind self); [reflexivity|].
  pose proof (normalise_cached self viewer img w cut c [] Hw Ho) as Hn.
  cbv zeta in Hn. rewrite Hn. reflexivity.
Qed.

(** With [whence > 2] a second draw leaves the entry of the first and
    makes the same call of the compositor. *)
Lemma draw_entry_again self viewer dst img w1 w2 c :
  Self.image self = Some img ->
  (2 < w1)%Q -> (2 < w2)%Q ->
  draw_entry self viewer dst img w2 (draw_entry self viewer dst img w1 c).1
  = draw_entry self viewer dst img w1 c.
Proof.
  intros Hi H1 H2.
  destruct (guards_above_two w1 H1) as (Ha1 & _).
  destruct (guards_above_two w2 H2) as (Ha2 & _).
  destruct (Self.optimize self) eqn:Ho.
  - (* [optimize] on *)
    assert (Hkeep : forall c' cut', Cache.cutout c' = Some cut' ->
              draw_entry self viewer dst img w2
                (draw_entry self viewer dst img w1 c').1
              = draw_entry self viewer dst img w1 c').
    { intros c' cut' Hc'.
      pose proof (draw_entry_cached self viewer dst img w1 c' cut' H1 Ho Hc') as Hd1.
      cbv zeta in Hd1. rewrite Hd1.
      destruct (Self.kind self) eqn:Hk; cbn [fst snd].
      - pose proof (draw_entry_cached self viewer dst img w2 c' cut' H2 Ho Hc') as Hd2.
        cbv zeta in Hd2. rewrite Hd2, Hk. reflexivity.
      - match goal with
        | |- draw_entry _ _ _ _ _ ?c2 = _ =>
            pose proof (draw_entry_cached self viewer dst img w2 c2 cut' H2 Ho Hc') as Hd2
        end.
        cbv zeta in Hd2. rewrite Hd2, Hk. reflexivity. }
    destruct (Cache.cutout c) as [cut|] eqn:Hc; [exact (Hkeep c cut Hc)|].
    (* no cutout yet: the stage runs in the first draw *)
    assert (Hg : forall w, Qle_bool w 0
                 || match Cache.cutout c with None => true | Some _ => false end
                 || negb (Self.optimize self) = true)
      by (intros w; rewrite Hc; apply orb_true_iff; left; apply orb_true_r).
    pose proof (common_draw_fresh self viewer dst c w1 img Hi (Hg w1)) as Hf.
    cbv zeta in Hf.
    destruct (Cache.cutout (_common_draw self viewer dst Cache.fresh 0).1)
      as [data|] eqn:Hd.
    + (* on screen: from the entry with the new cutout the draw is the same *)
      assert (Hsame : draw_entry self viewer dst img w1 c
                      = draw_entry self viewer dst img w1
                          (_common_draw self viewer dst c w1).1).
      { assert (Hc1 : Cache.cutout (_common_draw self viewer dst c w1).1 = Some data)
          by (rewrite Hf; reflexivity).
        pose proof (draw_entry_cached self viewer dst img w1 _ data H1 Ho Hc1) as Hd1.
        cbv zeta in Hd1. rewrite Hd1.
        unfold draw_entry. rewrite Hc1.
        destruct (Self.kind self); [reflexivity|].
        pose proof (normalise_cached self viewer img w1 data
                      (_common_draw self viewer dst c w1).1
                      (_common_draw self viewer dst c w1).2 H1 Ho) as Hn.
        cbv zeta in Hn. cbv zeta. rewrite Hn. reflexivity. }
      rewrite Hsame. apply (Hkeep _ data). rewrite Hf. reflexivity.
    + (* off screen, twice *)
      assert (Hoff : forall w, draw_entry self viewer dst img w (Cache.set_cutout None c)
                               = (Cache.set_cutout None c, None)).
      { intros w. unfold draw_entry.
        pose proof (common_draw_fresh self viewer dst (Cache.set_cutout None c) w img Hi)
          as Hf'.
        cbv zeta in Hf'. rewrite Hd in Hf'. rewrite Hf'; [reflexivity|].
        apply orb_true_iff; left; apply orb_true_r. }
      assert (Hfirst : draw_entry self viewer dst img w1 c
                       = (Cache.set_cutout None c, None))
        by (unfold draw_entry; rewrite Hf; reflexivity).
      rewrite Hfirst. cbn [fst snd]. apply Hoff.
  - (* [optimize] off: every stage runs in both draws *)
    assert (Hg : forall c' w, Qle_bool w 0
                 || match Cache.cutout c' with None => true | Some _ => false end
                 || negb (Self.optimize self) = true)
      by (intros c' w; rewrite Ho; apply orb_true_r).
    assert (Hrun : forall c' w,
              draw_entry self viewer dst img w c'
              = match Cache.cutout (_common_draw self viewer dst Cache.fresh 0).1 with
                | None => (Cache.set_cutout None c', None)
                | Some data =>
                    let c1 :=
                      Cache.set_cvs_pos
                        (Cache.cvs_pos (_common_draw self viewer dst Cache.fresh 0).1)
                        (Cache.set_cutout (Some data) c') in
                    match Self.kind self with
                    | image_kind => (c1, Some (Cache.cvs_pos c1, data, get_order E img))
                    | normimage_kind =>
                        let n := (normalise self viewer img w data c1 []).1 in
                        (n.1, Some (Cache.cvs_pos n.1, n.2, Viewer.get_rgb_order viewer))
                    end
                end).
    { intros c' w. unfold draw_entry.
      pose proof (common_draw_fresh self viewer dst c' w img Hi (Hg c' w)) as Hf.
      cbv zeta in Hf. rewrite Hf.
      destruct (Cache.cutout (_common_draw self viewer dst Cache.fresh 0).1)
        as [data|]; [|reflexivity].
      cbn [Cache.cutout Cache.set_cvs_pos Cache.set_cutout].
      destruct (Self.kind self); [reflexivity|].
      cbv zeta.
      pose proof (normalise_uncached self viewer img w data) as Hn.
      cbv zeta in Hn. rewrite !Hn by exact Ho. reflexivity. }
    rewrite !Hrun.
    destruct (Cache.cutout (_common_draw self viewer dst Cache.fresh 0).1)
      as [data|]; [|reflexivity].
    cbv zeta. destruct (Self.kind self); [reflexivity|].
    pose proof (normalise_uncached self viewer img) as Hn.
    cbv zeta in Hn. rewrite !Hn by exact Ho.
    unfold split_alpha. destruct c as [cu al pre rgb dr pos].
    destruct (Py.index "A" (get_order E img)); reflexivity.
Qed.

Lemma draw_image_without_image self viewer dst w :
  Self.image self = None -> draw_image self viewer dst w = (self, dst, []).
Proof.
  intros Hi. unfold draw_image, ImageP_draw_image, NormImageP_draw_image.
  rewrite Hi. destruct (Self.kind self); reflexivity.
Qed.

(** C1. For every image object of either class, every viewer and every
    destination, a draw with [whence > 2] followed, with nothing changed
    in between, by another draw with [whence > 2] on the object and the
    destination as the first draw left them: the second draw leaves the
    object, and so the whole cache dictionary and every attribute of the
    viewer's entry ([cutout], [alpha], [prergb], [rgbarr], [drawn],
    [cvs_pos]), as the first one left it, and its calls of the compositor
    are those of the first, with the same source array at the same
    position. *)
Theorem draw_image_twice_above_two self viewer dst w1 w2 :
  (2 < w1)%Q -> (2 < w2)%Q ->
  let r1 := draw_image self viewer dst w1 in
  let r2 := draw_image (object_after r1) viewer (canvas_after r1) w2 in
  object_after r2 = object_after r1
  /\ Self._cache (object_after r2) !! Viewer.ident viewer
     = Self._cache (object_after r1) !! Viewer.ident viewer
  /\ overlays (trace_of r2) = overlays (trace_of r1).
Proof.
  intros H1 H2 r1 r2.
  assert (Hobj : object_after r2 = object_after r1
                 /\ overlays (trace_of r2) = overlays (trace_of r1)).
  { subst r1 r2. destruct (Self.image self) as [img|] eqn:Hi.
    - destruct (draw_image_by_entry self viewer dst w1 img Hi) as (Ho1 & Hv1 & Hs1).
      set (r1 := draw_image self viewer dst w1) in *.
      set (e1 := draw_entry self viewer dst img w1 (current_entry self viewer)) in *.
      assert (Hi1 : Self.image (object_after r1) = Some img)
        by (rewrite Ho1; exact Hi).
      destruct (draw_image_by_entry (object_after r1) viewer (canvas_after r1) w2 img Hi1)
        as (Ho2 & Hv2 & _).
      assert (He2 : draw_entry (object_after r1) viewer (canvas_after r1) img w2
                      (current_entry (object_after r1) viewer) = e1).
      { rewrite Ho1, current_entry_store. unfold store.
        rewrite (draw_entry_same_attributes _ self viewer dst _ img w2 _ Hs1).
        apply draw_entry_again; assumption. }
      rewrite He2 in Ho2, Hv2. split.
      + rewrite Ho2, Ho1. apply store_store.
      + rewrite Hv2, Hv1, Ho1. reflexivity.
    - rewrite (draw_image_without_image self viewer dst w1 Hi).
      unfold object_after, canvas_after. cbn [fst snd].
      rewrite (draw_image_without_image self viewer dst w2 Hi). split; reflexivity. }
  destruct Hobj as [Ho Hv]. rewrite Ho. repeat split. exact Hv.
Qed.

End Idempotence.

Lemma draw_image_twice_above_two_witness :
  let r1 := draw_image (Sample.object normimage_kind 5 5) Sample.viewer Sample.canvas 3 in
  let r2 := draw_image (object_after r1) Sample.viewer (canvas_after r1) (5 # 2) in
  object_after r2 = object_after r1
  /\ Self._cache (object_after r2) !! Viewer.ident Sample.viewer
     = Self._cache (object_after r1) !! Viewer.ident Sample.viewer
  /\ overlays (trace_of r2) = overlays (trace_of r1).
Proof.
  apply (draw_image_twice_above_two
           (Sample.object normimage_kind 5 5) Sample.viewer Sample.canvas 3 (5 # 2));
    reflexivity.
Defined.

(** ** The sample, drawn *)

(** A full draw of the normalised sample object runs the four stages and
    composites the colour array with the alpha plane put back; it leaves
    the entry [Sample.drawn_entry]. *)
Example sample_full_draw :
  let r := draw_image (Sample.object normimage_kind 5 5) Sample.viewer Sample.canvas 0 in
  Self._cache (object_after r) !! 1%positive = Some Sample.drawn_entry
  /\ trace_of r
     = [cutout_stage; alpha_stage; visuals_stage; colormap_stage;
        overlay (4, 4) ([10; 20; 30; 255] : ndarray Sample.collab) "RGBA" "RGBA" 1%Q].
Proof. split; reflexivity. Qed.

(** A first draw with [whence = 3] runs the cutout stage, because the
    entry is fresh, but not the alpha split: the cutout keeps its alpha
    samples and the entry has no alpha plane. *)
Example sample_first_draw_at_three :
  let r := draw_image (Sample.object normimage_kind 5 5) Sample.viewer Sample.canvas 3 in
  Self._cache (object_after r) !! 1%positive
  = Some {| Cache.cutout := Some ([10; 20; 30; 255] : ndarray Sample.collab);
            Cache.alpha := None;
            Cache.prergb := Some ([10; 20; 30; 255] : ndarray Sample.collab);
            Cache.rgbarr := Some ([10; 20; 30; 255] : ndarray Sample.collab);
            Cache.drawn := false;
            Cache.cvs_pos := (4, 4) |}
  /\ trace_of r
     = [cutout_stage; visuals_stage; colormap_stage;
        overlay (4, 4) ([10; 20; 30; 255] : ndarray Sample.collab) "RGBA" "RGBA" 1%Q].
Proof. split; reflexivity. Qed.

(** The raw sample object out of sight: the cutout stage only. *)
Example sample_raw_offscreen :
  trace_of (draw_image (Sample.object image_kind 100 100) Sample.viewer Sample.canvas 0)
  = [cutout_stage].
Proof. reflexivity. Qed.

(** * Further properties of the code *)

(** ** The cache dictionary *)

Section CacheDictionary.
Context {E : Collab}.
Implicit Types (self : Self.t E) (viewer : Viewer.t E) (c : Cache.entry E).

Lemma in_cache_true self viewer :
  in_cache self viewer = true <-> is_Some (Self._cache self !! Viewer.ident viewer).
Proof. unfold in_cache. apply bool_decide_eq_true. Qed.

Lemma in_cache_false self viewer :
  in_cache self viewer = false <-> Self._cache self !! Viewer.ident viewer = None.
Proof.
  unfold in_cache. rewrite bool_decide_eq_false. rewrite eq_None_not_Some. reflexivity.
Qed.

Lemma get_cache_lookup self viewer :
  Self._cache (get_cache self viewer).2 !! Viewer.ident viewer
  = Some (get_cache self viewer).1.
Proof.
  unfold get_cache.
  destruct (Self._cache self !! Viewer.ident viewer) as [c|] eqn:Hc; cbn [fst snd].
  - exact Hc.
  - cbn. apply lookup_insert_eq.
Qed.

Lemma get_cache_others self viewer v :
  v <> Viewer.ident viewer ->
  Self._cache (get_cache self viewer).2 !! v = Self._cache self !! v.
Proof.
  intros Hv. unfold get_cache.
  destruct (Self._cache self !! Viewer.ident viewer) as [c|]; cbn [fst snd].
  - reflexivity.
  - cbn. apply lookup_insert_ne. congruence.
Qed.

(** X1. [get_cache] creates the entry of a viewer on the first request
    and only then: the entry it returns is the one the dictionary holds
    afterwards, a second request returns the same entry and changes
    nothing, the entries of the other viewers are untouched, an object
    that had the entry is unchanged, and a new entry is a reset one that
    makes the dictionary one larger. *)
Theorem get_cache_creates_once self viewer :
  let r := get_cache self viewer in
  Self._cache r.2 !! Viewer.ident viewer = Some r.1
  /\ in_cache r.2 viewer = true
  /\ get_cache r.2 viewer = r
  /\ (forall v, v <> Viewer.ident viewer ->
        Self._cache r.2 !! v = Self._cache self !! v)
  /\ (in_cache self viewer = true -> r.2 = self)
  /\ (in_cache self viewer = false ->
        is_reset self r.1
        /\ size (Self._cache r.2) = S (size (Self._cache self))).
Proof.
  cbv zeta. pose proof (get_cache_lookup self viewer) as Hl.
  split; [exact Hl|].
  split; [apply in_cache_true; rewrite Hl; eauto|].
  split.
  { unfold get_cache at 1. rewrite Hl. destruct (get_cache self viewer); reflexivity. }
  split; [intros v Hv; apply get_cache_others; exact Hv|].
  unfold get_cache.
  destruct (Self._cache self !! Viewer.ident viewer) as [c|] eqn:Hc; cbn [fst snd].
  - split; [reflexivity|].
    intros Hn. apply in_cache_false in Hn. congruence.
  - split.
    + intros Hy. apply in_cache_true in Hy. rewrite Hc in Hy.
      destruct Hy as [? Hy]. discriminate.
    + intros _. split; [apply reset_cache_is_reset|].
      cbn. apply map_size_insert_None. exact Hc.
Qed.

(** [invalidate_cache] stores the reset entry of the viewer in the object
    as it was. *)
Lemma invalidate_cache_result self viewer :
  invalidate_cache self viewer
  = (_reset_cache self (current_entry self viewer),
     store viewer (_reset_cache self (current_entry self viewer)) self).
Proof.
  unfold invalidate_cache.
  pose proof (get_cache_entry self viewer) as Hg.
  pose proof (store_get_cache self viewer) as Hs.
  destruct (get_cache_attributes self viewer) as [m Hm].
  destruct (get_cache self viewer) as [c0 s0]. cbn [fst snd] in *. subst c0.
  assert (Hk : _reset_cache s0 (current_entry self viewer)
               = _reset_cache self (current_entry self viewer))
    by (rewrite Hm; destruct self; reflexivity).
  rewrite Hk, Hs. reflexivity.
Qed.

(** X2. [invalidate_cache] resets the entry of the one viewer, creating
    it when it is missing, and returns it; the entries of the other
    viewers and every attribute of the object stay. *)
Theorem invalidate_cache_one_viewer self viewer :
  let r := invalidate_cache self viewer in
  is_reset self r.1
  /\ Self._cache r.2 !! Viewer.ident viewer = Some r.1
  /\ (forall v, v <> Viewer.ident viewer ->
        Self._cache r.2 !! v = Self._cache self !! v)
  /\ same_but_geometry self r.2
  /\ position r.2 = position self
  /\ Self.scale_x r.2 = Self.scale_x self
  /\ Self.scale_y r.2 = Self.scale_y self.
Proof.
  cbv zeta. rewrite invalidate_cache_result. cbn [fst snd].
  split; [apply reset_cache_is_reset|].
  split; [apply store_lookup|].
  split.
  - intros v Hv. cbn. apply lookup_insert_ne. congruence.
  - repeat split.
Qed.

End CacheDictionary.

Lemma get_cache_creates_once_witness :
  let r := get_cache (Sample.object normimage_kind 5 5) Sample.viewer in
  is_reset (Sample.object normimage_kind 5 5) r.1
  /\ size (Self._cache r.2) = 1%nat
  /\ (get_cache Sample.drawn_object Sample.viewer).2 = Sample.drawn_object.
Proof.
  intros r.
  pose proof (get_cache_creates_once (Sample.object normimage_kind 5 5) Sample.viewer)
    as (_ & _ & _ & _ & _ & Hnew).
  pose proof (get_cache_creates_once Sample.drawn_object Sample.viewer)
    as (_ & _ & _ & _ & Hold & _).
  destruct Hnew as [Hr Hsize]; [reflexivity|].
  split; [exact Hr|]. split; [exact Hsize|]. apply Hold. reflexivity.
Defined.

Lemma invalidate_cache_one_viewer_witness :
  let r := invalidate_cache Sample.drawn_object Sample.viewer in
  is_reset Sample.drawn_object r.1
  /\ Self._cache r.2 !! 1%positive = Some r.1
  /\ (forall v, v <> 1%positive ->
        Self._cache r.2 !! v = Self._cache Sample.drawn_object !! v).
Proof.
  intros r.
  pose proof (invalidate_cache_one_viewer Sample.drawn_object Sample.viewer)
    as (H1 & H2 & H3 & _).
  exact (conj H1 (conj H2 H3)).
Defined.

(** ** The stages of a draw *)

Section Stages.
Context {E : Collab}.
Implicit Types (self : Self.t E) (viewer : Viewer.t E) (dst : dstarr E)
  (c : Cache.entry E) (w : Q) (tr : list (event E)).

(** The three things the cutout stage can do to an entry. *)
Lemma common_draw_cases self viewer dst c w :
  _common_draw self viewer dst c w = (c, [])
  \/ _common_draw self viewer dst c w = (Cache.set_cutout None c, [cutout_stage])
  \/ exists data pos,
       _common_draw self viewer dst c w
       = (Cache.set_cvs_pos pos (Cache.set_cutout (Some data) c), [cutout_stage]).
Proof.
  unfold _common_draw.
  destruct (Self.image self) as [img|]; [|auto].
  destruct (Qle_bool w 0 || _ || _); [|auto].
  destruct (merge_clip self viewer img) as [[[dx dy] [a1 b1]] [a2 b2]].
  destruct (Qle_bool (a2 - a1) 0 || Qle_bool (b2 - b1) 0); [auto|].
  destruct (Viewer.get_scale_xy viewer), (Viewer.get_pan viewer).
  destruct (shape dst) as [[ht wd] dp].
  right. right. eexists _, _. reflexivity.
Qed.

(** What the later stages leave: the colour array they return is the one
    of the entry, the entry has an index array and a cutout, its [drawn]
    flag and position are untouched, and the trace grows by the stages
    entered, in order. *)
Lemma normalise_shape self viewer img w cut c tr :
  Cache.cutout c = Some cut ->
  let n := normalise self viewer img w cut c tr in
  Cache.rgbarr n.1.1 = Some n.1.2
  /\ is_Some (Cache.prergb n.1.1)
  /\ is_Some (Cache.cutout n.1.1)
  /\ Cache.drawn n.1.1 = Cache.drawn c
  /\ Cache.cvs_pos n.1.1 = Cache.cvs_pos c
  /\ exists a v m : bool,
       n.2 = tr ++ entered a alpha_stage ++ entered v visuals_stage
                ++ entered m colormap_stage
       /\ a = Qle_bool w 0 || negb (Self.optimize self)
       /\ (a = true -> v = true /\ m = true)
       /\ (coherent c -> v = true -> m = true).
Proof.
  intros Hcut. cbv zeta. unfold normalise, split_alpha, coherent.
  destruct c as [cu al pre rgb dr pos]. cbn in Hcut. subst cu.
  destruct (Self.optimize self).
  - destruct (Qle_bool w 0) eqn:H0.
    + assert (H1 : Qle_bool w 1 = true).
      { apply Qle_bool_iff. apply Qle_bool_iff in H0.
        apply (Qle_trans w 0 1); [exact H0 | discriminate]. }
      assert (H2 : Qle_bool w 2 = true).
      { apply Qle_bool_iff. apply Qle_bool_iff in H0.
        apply (Qle_trans w 0 2); [exact H0 | discriminate]. }
      rewrite H1, H2.
      destruct (Py.index "A" (get_order E img)), pre, rgb; cbn;
        (repeat split; eauto);
        exists true, true, true; rewrite <- ?app_assoc; cbn; auto.
    + destruct pre as [p|], rgb as [r|];
        destruct (Qle_bool w 1) eqn:H1, (Qle_bool w 2) eqn:H2; cbn;
        (repeat split; eauto);
        try (assert (Hc12 : Qle_bool w 2 = true)
               by (apply Qle_bool_iff; apply Qle_bool_iff in H1;
                   apply (Qle_trans w 1 2); [exact H1 | discriminate]);
             congruence).
      all: first
        [ exists false, true, true; rewrite <- ?app_assoc; cbn;
          repeat split; (discriminate || auto); fail
        | exists false, false, true; rewrite <- ?app_assoc; cbn;
          repeat split; (discriminate || auto); fail
        | exists false, false, false; rewrite <- ?app_assoc, ?app_nil_r; cbn;
          repeat split; (discriminate || auto); fail
        | exists false, true, false; rewrite <- ?app_assoc, ?app_nil_r; cbn;
          repeat split; try discriminate; auto;
          intros Hco; destruct Hco as [? Hco]; [eauto | discriminate] ].
  - destruct (Py.index "A" (get_order E img)), pre, rgb; cbn;
      rewrite ?orb_true_r; cbn;
      (repeat split; eauto);
      exists true, true, true; rewrite <- ?app_assoc; cbn; auto.
Qed.

(** What one draw does to an entry: the [drawn] flag stays, a coherent
    entry stays coherent, and the call of the compositor, when there is
    one, has the array and the position that the entry now holds. *)
Lemma draw_entry_shape self viewer dst img w c :
  let e := draw_entry self viewer dst img w c in
  Cache.drawn e.1 = Cache.drawn c
  /\ (coherent c -> coherent e.1)
  /\ match e.2 with
     | None => Cache.cutout e.1 = None
     | Some (pos, src, order) =>
         pos = Cache.cvs_pos e.1
         /\ is_Some (Cache.cutout e.1)
         /\ match Self.kind self with
            | image_kind => Cache.cutout e.1 = Some src /\ order = get_order E img
            | normimage_kind =>
                Cache.rgbarr e.1 = Some src /\ is_Some (Cache.prergb e.1)
                /\ order = Viewer.get_rgb_order viewer
            end
     end.
Proof.
  cbv zeta. unfold draw_entry.
  assert (Hc1 : exists c1 tr1,
             _common_draw self viewer dst c w = (c1, tr1)
             /\ Cache.drawn c1 = Cache.drawn c
             /\ Cache.prergb c1 = Cache.prergb c
             /\ Cache.rgbarr c1 = Cache.rgbarr c).
  { destruct (common_draw_cases self viewer dst c w) as [-> | [-> | (d & p & ->)]];
      eexists _, _; repeat split. }
  destruct Hc1 as (c1 & tr1 & -> & Hd & Hp & Hr). cbn [fst snd].
  assert (Hco : coherent c -> coherent c1)
    by (unfold coherent; rewrite Hp, Hr; auto).
  destruct (Cache.cutout c1) as [cut|] eqn:Hcut; cbn [fst snd]; [|auto].
  destruct (Self.kind self); cbn [fst snd].
  - rewrite Hcut. repeat split; eauto.
  - pose proof (normalise_shape self viewer img w cut c1 tr1 Hcut)
      as (Hrgb & Hpre & Hcu & Hdr & _ & _).
    cbv zeta in Hrgb, Hpre, Hcu, Hdr.
    split; [congruence|]. split; [intros _ _; exact Hpre|].
    repeat split; assumption.
Qed.

(** X3. A draw changes the object in the entry of its viewer only: the
    entries of the other viewers, the attributes of the object and the
    shape of the destination are as before, and the [drawn] flag of the
    viewer's entry keeps its value. *)
Theorem draw_image_touches_one_entry self viewer dst w :
  let r := draw_image self viewer dst w in
  (forall v, v <> Viewer.ident viewer ->
     Self._cache (object_after r) !! v = Self._cache self !! v)
  /\ same_but_geometry self (object_after r)
  /\ position (object_after r) = position self
  /\ Self.scale_x (object_after r) = Self.scale_x self
  /\ Self.scale_y (object_after r) = Self.scale_y self
  /\ shape (canvas_after r) = shape dst
  /\ (forall c', Self._cache (object_after r) !! Viewer.ident viewer = Some c' ->
        Cache.drawn c' = Cache.drawn (current_entry self viewer)).
Proof.
  cbv zeta. destruct (Self.image self) as [img|] eqn:Hi.
  - destruct (draw_image_by_entry self viewer dst w img Hi) as (Ho & _ & Hs).
    cbv zeta in Ho, Hs. rewrite Ho.
    pose proof (draw_entry_shape self viewer dst img w (current_entry self viewer))
      as (Hd & _).
    cbv zeta in Hd.
    split; [intros v Hv; cbn; apply lookup_insert_ne; congruence|].
    split; [repeat split|]. split; [reflexivity|]. split; [reflexivity|].
    split; [reflexivity|]. split; [exact Hs|].
    intros c' Hc'. rewrite store_lookup in Hc'. injection Hc' as <-. exact Hd.
  - rewrite (draw_image_without_image self viewer dst w Hi).
    unfold object_after, canvas_after. cbn [fst snd].
    split; [reflexivity|]. split; [repeat split|]. repeat split.
    intros c' Hc'. unfold current_entry. rewrite Hc'. reflexivity.
Qed.

(** X4. A draw calls the compositor at most once, and what it composites
    is what the cache holds afterwards.  Either it makes no call, the
    destination is untouched, and there is no image or the cutout of the
    viewer's entry is [None]; or it makes one call, with the position of
    the entry and with its cutout (raw class) or its colour array
    (normalised class, where the entry then also has an index array), in
    the channel order of the image or of the viewer, and the destination
    is the result of that call. *)
Theorem draw_image_composites_cached_array self viewer dst w :
  let r := draw_image self viewer dst w in
  (overlays (trace_of r) = []
   /\ canvas_after r = dst
   /\ (Self.image self = None
       \/ exists c', Self._cache (object_after r) !! Viewer.ident viewer = Some c'
                     /\ Cache.cutout c' = None))
  \/ exists img c' src,
       Self.image self = Some img
       /\ Self._cache (object_after r) !! Viewer.ident viewer = Some c'
       /\ is_Some (Cache.cutout c')
       /\ match Self.kind self with
          | image_kind => Cache.cutout c' = Some src
          | normimage_kind =>
              Cache.rgbarr c' = Some src /\ is_Some (Cache.prergb c')
          end
       /\ let src_order :=
            match Self.kind self with
            | image_kind => get_order E img
            | normimage_kind => Viewer.get_rgb_order viewer
            end in
          overlays (trace_of r)
          = [overlay (Cache.cvs_pos c') src (Viewer.get_rgb_order viewer) src_order
               (Self.alpha self)]
          /\ canvas_after r
             = composite dst (Cache.cvs_pos c') src (Viewer.get_rgb_order viewer)
                 src_order (Self.alpha self).
Proof.
  cbv zeta. destruct (Self.image self) as [img|] eqn:Hi.
  - pose proof (draw_entry_shape self viewer dst img w (current_entry self viewer))
      as (_ & _ & Hcall).
    cbv zeta in Hcall.
    destruct (draw_image_by_entry self viewer dst w img Hi) as (Ho & Hv & _).
    cbv zeta in Ho, Hv.
    assert (Hdst : canvas_after (draw_image self viewer dst w)
                   = match (draw_entry self viewer dst img w
                              (current_entry self viewer)).2 with
                     | None => dst
                     | Some (pos, src, order) =>
                         composite dst pos src (Viewer.get_rgb_order viewer) order
                           (Self.alpha self)
                     end).
    { unfold canvas_after, draw_image, draw_entry.
      destruct (Self.kind self).
      - rewrite (ImageP_draw_image_entry _ _ _ _ img Hi). cbv zeta.
        destruct (Cache.cutout
                    (_common_draw self viewer dst (current_entry self viewer) w).1);
          reflexivity.
      - rewrite (NormImageP_draw_image_entry _ _ _ _ img Hi). cbv zeta.
        destruct (Cache.cutout
                    (_common_draw self viewer dst (current_entry self viewer) w).1);
          reflexivity. }
    rewrite Hv, Hdst, Ho.
    destruct (draw_entry self viewer dst img w (current_entry self viewer))
      as [c' [[[pos src] order]|]]; cbn [fst snd] in *.
    + right. exists img, c', src.
      destruct Hcall as (-> & Hcu & Hk).
      split; [reflexivity|]. split; [apply store_lookup|]. split; [exact Hcu|].
      destruct (Self.kind self).
      * destruct Hk as [Hk ->]. repeat split. exact Hk.
      * destruct Hk as (Hk & Hp & ->). repeat split; assumption.
    + left. split; [reflexivity|]. split; [reflexivity|]. right.
      exists c'. split; [apply store_lookup | exact Hcall].
  - left. rewrite (draw_image_without_image self viewer dst w Hi).
    repeat split. left. reflexivity.
Qed.

End Stages.

Section StageOrder.
Context {E : Collab}.
Implicit Types (self : Self.t E) (viewer : Viewer.t E) (dst : dstarr E)
  (c : Cache.entry E) (w : Q) (tr : list (event E)).

Lemma common_draw_keeps_arrays self viewer dst c w :
  exists b : bool,
    (_common_draw self viewer dst c w).2 = entered b cutout_stage
    /\ Cache.prergb (_common_draw self viewer dst c w).1 = Cache.prergb c
    /\ Cache.rgbarr (_common_draw self viewer dst c w).1 = Cache.rgbarr c.
Proof.
  destruct (common_draw_cases self viewer dst c w) as [-> | [-> | (d & p & ->)]].
  - exists false. repeat split.
  - exists true. repeat split.
  - exists true. repeat split.
Qed.

(** X5. The stages of a draw run in the order of the pipeline, each at
    most once, and the call of the compositor, if any, comes last.  The
    alpha split never runs without the visual-adjustment and the
    colour-mapping stage after it; when one of the three later stages runs
    the draw composites; an object of the raw class runs none of them; and
    on a coherent entry the visual-adjustment stage never runs without the
    colour-mapping stage after it. *)
Theorem draw_image_stage_order self viewer dst w :
  let r := draw_image self viewer dst w in
  exists (b a v m : bool) (ov : list (event E)),
    trace_of r
    = entered b cutout_stage ++ entered a alpha_stage ++ entered v visuals_stage
      ++ entered m colormap_stage ++ ov
    /\ ov = overlays (trace_of r)
    /\ (length ov <= 1)%nat
    /\ (a = true -> v = true /\ m = true)
    /\ (v = true \/ m = true -> ov <> [])
    /\ (Self.kind self = image_kind -> a = false /\ v = false /\ m = false)
    /\ (coherent (current_entry self viewer) -> v = true -> m = true).
Proof.
  cbv zeta. unfold trace_of.
  destruct (Self.image self) as [img|] eqn:Hi.
  - destruct (common_draw_keeps_arrays self viewer dst (current_entry self viewer) w)
      as (b & Htr & Hp & Hr).
    unfold draw_image. destruct (Self.kind self) eqn:Hk.
    + rewrite (ImageP_draw_image_entry _ _ _ _ img Hi). cbv zeta.
      destruct (_common_draw self viewer dst (current_entry self viewer) w) as [c1 tr1].
      cbn [fst snd] in *. subst tr1.
      destruct (Cache.cutout c1) as [cut|]; cbn [fst snd].
      * exists b, false, false, false. eexists. split; [reflexivity|].
        split; [destruct b; reflexivity|]. split; [cbn; lia|].
        repeat split; try discriminate; intros [?|?]; discriminate.
      * exists b, false, false, false, []. split; [destruct b; reflexivity|].
        split; [destruct b; reflexivity|]. split; [cbn; lia|].
        repeat split; try discriminate; intros [?|?]; discriminate.
    + rewrite (NormImageP_draw_image_entry _ _ _ _ img Hi). cbv zeta.
      destruct (_common_draw self viewer dst (current_entry self viewer) w) as [c1 tr1].
      cbn [fst snd] in *. subst tr1.
      destruct (Cache.cutout c1) as [cut|] eqn:Hcut; cbn [fst snd].
      * pose proof (normalise_shape self viewer img w cut c1 (entered b cutout_stage) Hcut)
          as (_ & _ & _ & _ & _ & a & v & m & Hn & _ & Hav & Hvm).
        cbv zeta in Hn. rewrite Hn.
        exists b, a, v, m. eexists. rewrite <- !app_assoc. split; [reflexivity|].
        split; [destruct b, a, v, m; reflexivity|]. split; [cbn; lia|].
        split; [exact Hav|]. split; [intros _; discriminate|].
        split; [discriminate|].
        intros Hco. apply Hvm. unfold coherent in *. rewrite Hp, Hr. exact Hco.
      * exists b, false, false, false, []. split; [destruct b; reflexivity|].
        split; [destruct b; reflexivity|]. split; [cbn; lia|].
        repeat split; try discriminate; intros [?|?]; discriminate.
  - rewrite (draw_image_without_image self viewer dst w Hi). cbn [fst snd].
    exists false, false, false, false, []. split; [reflexivity|].
    split; [reflexivity|]. split; [cbn; lia|].
    repeat split; try discriminate; intros [?|?]; discriminate.
Qed.

Lemma reset_cache_coherent self c : coherent c -> coherent (_reset_cache self c).
Proof.
  unfold coherent, _reset_cache. destruct (Self.kind self); cbn; [auto|].
  intros _ [? H]. discriminate.
Qed.

Lemma reset_optimize_coherent self : all_coherent self -> all_coherent (reset_optimize self).
Proof.
  intros H v c. rewrite reset_optimize_lookup.
  destruct (Self._cache self !! v) as [c0|] eqn:Hc0; cbn; [|discriminate].
  intros [= <-]. apply reset_cache_coherent. exact (H v c0 Hc0).
Qed.

Lemma current_entry_coherent self viewer :
  all_coherent self -> coherent (current_entry self viewer).
Proof.
  intros H. unfold current_entry.
  destruct (Self._cache self !! Viewer.ident viewer) as [c|] eqn:Hc; cbn.
  - exact (H _ c Hc).
  - unfold coherent, _reset_cache. destruct (Self.kind self); cbn; intros [? Hn]; discriminate.
Qed.

(** X6. An invariant of the cache: every entry that holds a colour array
    holds the index array as well.  It holds for a new object of either
    class, and [draw_image], [set_image], [set_scale], [set_origin],
    [scale_by], [invalidate_cache] and a valid [set_edit_point] keep it. *)
Theorem cache_stays_coherent self viewer dst w :
  (forall pt image alpha sx sy interp flipy optimize,
     all_coherent (E:=E) (ImageP_init pt image alpha sx sy interp flipy optimize))
  /\ (forall pt image alpha sx sy interp cuts optimize rgbmap autocuts,
        all_coherent (E:=E)
          (NormImageP_init pt image alpha sx sy interp cuts optimize rgbmap autocuts))
  /\ (all_coherent self ->
      all_coherent (object_after (draw_image self viewer dst w))
      /\ (forall image, all_coherent (set_image self image))
      /\ (forall sx sy, all_coherent (set_scale sx sy self))
      /\ (forall x y, all_coherent (set_origin x y self))
      /\ (forall sx sy, all_coherent (NormImageP_scale_by sx sy self))
      /\ all_coherent (invalidate_cache self viewer).2
      /\ (forall i pt detail, all_coherent (set_edit_point i pt detail self).2)).
Proof.
  split; [intros; intros v c Hc; cbn in Hc; rewrite lookup_empty in Hc; discriminate|].
  split; [intros; intros v c Hc; cbn in Hc; rewrite lookup_empty in Hc; discriminate|].
  intros Hall.
  assert (Hsame : forall s', Self.kind s' = Self.kind self ->
                             Self._cache s' = Self._cache self ->
                             all_coherent (reset_optimize s')).
  { intros s' Hk Hc. apply reset_optimize_coherent. intros v c. rewrite Hc. apply Hall. }
  split.
  { destruct (Self.image self) as [img|] eqn:Hi.
    - destruct (draw_image_by_entry self viewer dst w img Hi) as (Ho & _).
      cbv zeta in Ho. rewrite Ho. intros v c. cbn.
      destruct (decide (v = Viewer.ident viewer)) as [-> | Hv].
      + rewrite lookup_insert_eq. intros [= <-].
        apply draw_entry_shape. apply current_entry_coherent. exact Hall.
      + rewrite lookup_insert_ne by congruence. apply Hall.
    - rewrite (draw_image_without_image self viewer dst w Hi). exact Hall. }
  split.
  { intros image.
    assert (Hset : set_image self image = ImageP_set_image self image)
      by (unfold set_image; destruct (Self.kind self); reflexivity).
    rewrite Hset. unfold ImageP_set_image. intros v c Hc.
    apply (Hsame (Self.set_image image self) eq_refl eq_refl v c). exact Hc. }
  split; [intros sx sy; apply Hsame; reflexivity|].
  split; [intros x y; apply Hsame; reflexivity|].
  split; [intros sx sy; apply Hsame; reflexivity|].
  split.
  { rewrite invalidate_cache_result. cbn [snd].
    intros v c. destruct (decide (v = Viewer.ident viewer)) as [-> | Hv].
    - rewrite store_lookup. intros [= <-]. apply reset_cache_coherent.
      apply current_entry_coherent. exact Hall.
    - cbn. rewrite lookup_insert_ne by congruence. apply Hall. }
  intros i pt detail. unfold set_edit_point.
  destruct (calc_dual_scale_from_pt E pt detail) as [fx fy].
  destruct (i =? 0).
  { unfold mbind, method_bind, self_move_to_pt.
    destruct (get_center_pt self) as [[ref_x ref_y]|].
    - apply Hsame; reflexivity.
    - destruct (Self.image self); exact Hall. }
  destruct (i =? 1); [apply Hsame; reflexivity|].
  destruct (i =? 2); [apply Hsame; reflexivity|].
  destruct (i =? 3); [apply Hsame; reflexivity|].
  exact Hall.
Qed.

End StageOrder.

Lemma draw_image_touches_one_entry_witness :
  let r := draw_image Sample.drawn_object Sample.panned Sample.canvas 0 in
  (forall v, v <> 1%positive ->
     Self._cache (object_after r) !! v = Self._cache Sample.drawn_object !! v)
  /\ position (object_after r) = position Sample.drawn_object
  /\ shape (canvas_after r) = shape Sample.canvas.
Proof.
  intros r.
  pose proof (draw_image_touches_one_entry
                Sample.drawn_object Sample.panned Sample.canvas 0)
    as (H1 & _ & H2 & _ & _ & H3 & _).
  exact (conj H1 (conj H2 H3)).
Defined.

Lemma draw_image_stage_order_witness :
  let r := draw_image Sample.drawn_object Sample.viewer Sample.canvas 1 in
  exists (b a v m : bool) (ov : list (event Sample.collab)),
    trace_of r
    = entered b cutout_stage ++ entered a alpha_stage ++ entered v visuals_stage
      ++ entered m colormap_stage ++ ov
    /\ (a = true -> v = true /\ m = true)
    /\ (v = true -> m = true).
Proof.
  intros r.
  destruct (draw_image_stage_order Sample.drawn_object Sample.viewer Sample.canvas 1)
    as (b & a & v & m & ov & Ht & _ & _ & Hav & _ & _ & Hvm).
  exists b, a, v, m, ov. split; [exact Ht|]. split; [exact Hav|].
  apply Hvm. intros _. exists ([10; 20; 30] : ndarray Sample.collab). reflexivity.
Defined.

Lemma cache_stays_coherent_witness :
  all_coherent (object_after (draw_image Sample.drawn_object Sample.viewer
                                Sample.canvas 2))
  /\ all_coherent (set_scale 2 2 Sample.drawn_object).
Proof.
  assert (Hall : all_coherent Sample.drawn_object).
  { intros v c Hc. unfold Sample.drawn_object, store in Hc. cbn in Hc.
    destruct (decide (v = 1%positive)) as [-> | Hv].
    - rewrite lookup_insert_eq in Hc. injection Hc as <-.
      intros _. exists ([10; 20; 30] : ndarray Sample.collab). reflexivity.
    - rewrite lookup_insert_ne in Hc by congruence.
      rewrite lookup_empty in Hc. discriminate. }
  pose proof (cache_stays_coherent Sample.drawn_object Sample.viewer Sample.canvas 2)
    as (_ & _ & Hkeep).
  destruct (Hkeep Hall) as (Hd & _ & Hs & _).
  split; [exact Hd | exact (Hs 2%Q 2%Q)].
Defined.

(** ** Which stages a draw needs *)

Section Needs.
Context {E : Collab}.
Implicit Types (self : Self.t E) (viewer : Viewer.t E) (dst : dstarr E)
  (c : Cache.entry E) (w : Q) (tr : list (event E)).

Lemma common_draw_runs self viewer dst c w img :
  Self.image self = Some img ->
  Qle_bool w 0
  || match Cache.cutout c with None => true | Some _ => false end
  || negb (Self.optimize self) = true ->
  (_common_draw self viewer dst c w).2 = [cutout_stage].
Proof.
  intros Hi Hg. unfold _common_draw. rewrite Hi, Hg.
  destruct (merge_clip self viewer img) as [[[dx dy] [a1 b1]] [a2 b2]].
  destruct (Qle_bool (a2 - a1) 0 || Qle_bool (b2 - b1) 0); [reflexivity|].
  destruct (Viewer.get_scale_xy viewer), (Viewer.get_pan viewer).
  destruct (shape dst) as [[ht wd] dp].
  reflexivity.
Qed.

(** The trace of a draw begins with the trace of the cutout stage. *)
Lemma draw_image_trace_prefix self viewer dst w img :
  Self.image self = Some img ->
  exists rest,
    trace_of (draw_image self viewer dst w)
    = (_common_draw self viewer dst (current_entry self viewer) w).2 ++ rest.
Proof.
  intros Hi. unfold trace_of, draw_image. destruct (Self.kind self).
  - rewrite (ImageP_draw_image_entry _ _ _ _ img Hi). cbv zeta.
    destruct (Cache.cutout (_common_draw self viewer dst (current_entry self viewer) w).1);
      cbn [snd]; eexists; [reflexivity|].
    symmetry. apply app_nil_r.
  - rewrite (NormImageP_draw_image_entry _ _ _ _ img Hi). cbv zeta.
    destruct (Cache.cutout (_common_draw self viewer dst (current_entry self viewer) w).1)
      as [cut|] eqn:Hcut; cbn [snd].
    + pose proof (normalise_shape self viewer img w cut _
                    ((_common_draw self viewer dst (current_entry self viewer) w).2) Hcut)
        as (_ & _ & _ & _ & _ & a & v & m & Hn & _).
      cbv zeta in Hn. rewrite Hn. rewrite <- !app_assoc. eexists. reflexivity.
    + eexists. symmetry. apply app_nil_r.
Qed.

Lemma no_cutout_runs_cutout_stage self viewer dst w img :
  Self.image self = Some img -> no_cutout self viewer ->
  exists rest, trace_of (draw_image self viewer dst w) = cutout_stage :: rest.
Proof.
  intros Hi Hn. destruct (draw_image_trace_prefix self viewer dst w img Hi) as [rest Hr].
  rewrite Hr, (common_draw_runs self viewer dst _ w img Hi).
  - eexists. reflexivity.
  - rewrite (no_cutout_current_entry self viewer Hn).
    apply orb_true_iff. left. apply orb_true_r.
Qed.

Lemma caches_reset_no_cutout self self' viewer :
  caches_reset self self' -> no_cutout self' viewer.
Proof. intros [_ Hr] c Hc. destruct (Hr _ c Hc) as (H & _). exact H. Qed.

(** X7. After a change of the geometry or of the image the next draw cuts
    the image anew, for every viewer and whatever [whence] it is given:
    after [set_scale], [set_origin], [scale_by] of the normalised class,
    [scale_by_factors] with two factors, [set_image], [invalidate_cache]
    for the viewer or a [set_edit_point] that returns, the trace of
    [draw_image] on an object with an image begins with the cutout
    stage. *)
Theorem change_forces_new_cutout self viewer dst w img :
  Self.image self = Some img ->
  let cut_anew s :=
    exists rest, trace_of (draw_image s viewer dst w) = cutout_stage :: rest in
  (forall sx sy, cut_anew (set_scale sx sy self))
  /\ (forall x y, cut_anew (set_origin x y self))
  /\ (Self.kind self = normimage_kind ->
      forall sx sy, cut_anew (NormImageP_scale_by sx sy self))
  /\ (forall sx sy more, cut_anew (scale_by_factors (sx :: sy :: more) self).2)
  /\ (forall img', cut_anew (set_image self (Some img')))
  /\ cut_anew (invalidate_cache self viewer).2
  /\ (forall i pt detail,
        Py.is_raised (set_edit_point i pt detail self).1 = false ->
        cut_anew (set_edit_point i pt detail self).2).
Proof.
  intros Hi cut_anew.
  assert (Hreset : forall s', Self.image s' = Some img ->
                     cut_anew (reset_optimize s')).
  { intros s' Hi'. apply (no_cutout_runs_cutout_stage _ _ _ _ img); [exact Hi'|].
    apply (caches_reset_no_cutout s'). apply reset_optimize_resets. }
  split; [intros; apply Hreset; exact Hi|].
  split; [intros; apply Hreset; exact Hi|].
  split; [intros; apply Hreset; exact Hi|].
  split; [intros; apply Hreset; exact Hi|].
  split.
  { intros img'.
    assert (Hset : set_image self (Some img') = ImageP_set_image self (Some img'))
      by (unfold set_image; destruct (Self.kind self); reflexivity).
    rewrite Hset. unfold ImageP_set_image.
    apply (no_cutout_runs_cutout_stage _ _ _ _ img'); [reflexivity|].
    intros c Hc. cbn in Hc.
    pose proof (reset_optimize_resets (Self.set_image (Some img') self)) as [_ Hr].
    destruct (Hr _ c Hc) as (H & _). exact H. }
  split.
  { rewrite invalidate_cache_result. cbn [snd].
    apply (no_cutout_runs_cutout_stage _ _ _ _ img); [exact Hi|].
    intros c Hc. rewrite store_lookup in Hc. injection Hc as <-.
    apply reset_cache_is_reset. }
  intros i pt detail. unfold set_edit_point.
  destruct (calc_dual_scale_from_pt E pt detail) as [fx fy].
  destruct (i =? 0).
  { unfold mbind, method_bind, self_move_to_pt.
    destruct (get_center_pt self) as [[ref_x ref_y]|].
    - intros _. apply Hreset. exact Hi.
    - rewrite Hi. discriminate. }
  destruct (i =? 1); [intros _; apply Hreset; exact Hi|].
  destruct (i =? 2); [intros _; apply Hreset; exact Hi|].
  destruct (i =? 3); [intros _; apply Hreset; exact Hi|].
  discriminate.
Qed.

End Needs.

Lemma change_forces_new_cutout_witness :
  (exists rest,
     trace_of (draw_image (set_scale 2 2 Sample.drawn_object) Sample.viewer
                 Sample.canvas 3) = cutout_stage :: rest)
  /\ (exists rest,
        trace_of (draw_image (NormImageP_scale_by 2 2 Sample.drawn_object)
                    Sample.viewer Sample.canvas 3) = cutout_stage :: rest)
  /\ (exists rest,
        trace_of (draw_image (set_edit_point 0 (6, 6)%Q Sample.detail
                                Sample.drawn_object).2 Sample.viewer
                    Sample.canvas 3) = cutout_stage :: rest).
Proof.
  pose proof (change_forces_new_cutout Sample.drawn_object Sample.viewer Sample.canvas 3
                Sample.pic eq_refl) as (H1 & _ & H3 & _ & _ & _ & H7).
  split; [exact (H1 2%Q 2%Q)|].
  split; [exact (H3 eq_refl 2%Q 2%Q)|].
  apply (H7 0 (6, 6)%Q Sample.detail). reflexivity.
Defined.

Section Reuse.
Context {E : Collab}.
Implicit Types (self : Self.t E) (viewer : Viewer.t E) (dst : dstarr E)
  (c : Cache.entry E) (w : Q) (tr : list (event E)).

(** The later stages when the alpha split runs: everything is computed
    from the cutout. *)
Lemma normalise_full self viewer img w cut c tr :
  Qle_bool w 0 || negb (Self.optimize self) = true ->
  let rgbmap :=
    match Self.rgbmap self with
    | Some m => m
    | None => Viewer.get_rgbmap viewer
    end in
  let s := split_alpha rgbmap (get_order E img) cut c in
  let idx := index_array self viewer rgbmap s.2 in
  let rgbarr :=
    colour_map rgbmap (Viewer.get_rgb_order viewer) (get_order E img) idx
      (Cache.alpha s.1) in
  (normalise self viewer img w cut c tr).1
  = (Cache.set_rgbarr (Some rgbarr) (Cache.set_prergb (Some idx) s.1), rgbarr).
Proof.
  intros Hg. destruct (Self.optimize self) eqn:Ho.
  - cbn in Hg. rewrite orb_false_r in Hg.
    assert (H1 : Qle_bool w 1 = true).
    { apply Qle_bool_iff. apply Qle_bool_iff in Hg.
      apply (Qle_trans w 0 1); [exact Hg | discriminate]. }
    assert (H2 : Qle_bool w 2 = true).
    { apply Qle_bool_iff. apply Qle_bool_iff in Hg.
      apply (Qle_trans w 0 2); [exact Hg | discriminate]. }
    cbv zeta. unfold normalise. rewrite Ho, Hg, H1, H2. cbn [orb].
    destruct (split_alpha _ (get_order E img) cut c) as [c1 cut1].
    cbn [fst snd].
    destruct (Cache.prergb c1); cbn [fst snd];
      match goal with
      | |- context [Cache.rgbarr ?x] => destruct (Cache.rgbarr x)
      end; reflexivity.
  - apply normalise_uncached. exact Ho.
Qed.

(** A draw that runs every stage does not look at the entry. *)
Lemma draw_entry_full self viewer dst img w c :
  Self.image self = Some img ->
  Qle_bool w 0 || negb (Self.optimize self) = true ->
  (draw_entry self viewer dst img w c).2
  = (draw_entry self viewer dst img 0 Cache.fresh).2.
Proof.
  intros Hi Hg. unfold draw_entry.
  assert (Hgc : forall c', Qle_bool w 0
                || match Cache.cutout c' with None => true | Some _ => false end
                || negb (Self.optimize self) = true).
  { intros c'. apply orb_true_iff in Hg as [-> | ->]; [reflexivity | apply orb_true_r]. }
  pose proof (common_draw_fresh self viewer dst c w img Hi (Hgc c)) as Hf.
  cbv zeta in Hf. rewrite Hf.
  destruct (Cache.cutout (_common_draw self viewer dst Cache.fresh 0).1) as [data|];
    [|reflexivity].
  cbn [Cache.cutout Cache.set_cvs_pos Cache.set_cutout].
  destruct (Self.kind self); [reflexivity|].
  cbv zeta.
  pose proof (normalise_full self viewer img w data) as Hn.
  pose proof (normalise_full self viewer img 0 data) as Hn0.
  cbv zeta in Hn, Hn0. rewrite !Hn by exact Hg. rewrite !Hn0 by reflexivity.
  unfold split_alpha.
  destruct (Py.index "A" (get_order E img)); reflexivity.
Qed.

(** X8. A full redraw does not depend on the cache: with [whence <= 0], or
    with [optimize] off at any [whence], the call of the compositor that
    [draw_image] makes is the same whatever the cache dictionary holds and
    whatever the two values of [whence]. *)
Theorem full_redraw_ignores_cache self viewer dst w w' m :
  ((w <= 0)%Q /\ (w' <= 0)%Q) \/ Self.optimize self = false ->
  overlays (trace_of (draw_image (Self.set_cache m self) viewer dst w'))
  = overlays (trace_of (draw_image self viewer dst w)).
Proof.
  intros Hg.
  assert (Hgw : Qle_bool w 0 || negb (Self.optimize self) = true
                /\ Qle_bool w' 0 || negb (Self.optimize self) = true).
  { destruct Hg as [[H1 H2] | ->].
    - rewrite (Qle_bool_true _ _ H1), (Qle_bool_true _ _ H2). split; reflexivity.
    - split; apply orb_true_r. }
  destruct Hgw as [Hw Hw'].
  destruct (Self.image self) as [img|] eqn:Hi.
  - assert (Hi' : Self.image (Self.set_cache m self) = Some img) by exact Hi.
    destruct (draw_image_by_entry self viewer dst w img Hi) as (_ & Hv & _).
    destruct (draw_image_by_entry (Self.set_cache m self) viewer dst w' img Hi')
      as (_ & Hv' & _).
    cbv zeta in Hv, Hv'. rewrite Hv, Hv'.
    rewrite (draw_entry_same_attributes m self viewer dst dst img w' _ eq_refl).
    rewrite (draw_entry_full self viewer dst img w' _ Hi Hw').
    rewrite (draw_entry_full self viewer dst img w _ Hi Hw).
    destruct self; reflexivity.
  - rewrite (draw_image_without_image self viewer dst w Hi).
    rewrite (draw_image_without_image (Self.set_cache m self) viewer dst w' Hi).
    reflexivity.
Qed.

Lemma store_same self viewer c :
  Self._cache self !! Viewer.ident viewer = Some c -> store viewer c self = self.
Proof.
  intros Hc. unfold store. rewrite (insert_id _ _ _ Hc). apply set_cache_same.
Qed.

Lemma current_entry_lookup self viewer c :
  Self._cache self !! Viewer.ident viewer = Some c -> current_entry self viewer = c.
Proof. intros Hc. unfold current_entry. rewrite Hc. reflexivity. Qed.

(** X9. A draw that finds everything in the cache only composites.  For
    an object of the raw class with [optimize] on, [whence > 0] and a
    cutout in the viewer's entry, and for an object of the normalised
    class with [optimize] on, [whence > 2] and a cutout, an index array
    and a colour array in the entry, [draw_image] leaves the object as it
    is, runs no stage, and composites the cached array at the cached
    position. *)
Theorem cached_draw_only_composites self viewer dst w img c :
  Self.image self = Some img ->
  Self.optimize self = true ->
  Self._cache self !! Viewer.ident viewer = Some c ->
  (forall cut,
     Self.kind self = image_kind -> (0 < w)%Q -> Cache.cutout c = Some cut ->
     draw_image self viewer dst w
     = (self,
        composite dst (Cache.cvs_pos c) cut (Viewer.get_rgb_order viewer)
          (get_order E img) (Self.alpha self),
        [overlay (Cache.cvs_pos c) cut (Viewer.get_rgb_order viewer)
           (get_order E img) (Self.alpha self)]))
  /\ (forall cut idx rgb,
        Self.kind self = normimage_kind -> (2 < w)%Q ->
        Cache.cutout c = Some cut -> Cache.prergb c = Some idx ->
        Cache.rgbarr c = Some rgb ->
        draw_image self viewer dst w
        = (self,
           composite dst (Cache.cvs_pos c) rgb (Viewer.get_rgb_order viewer)
             (Viewer.get_rgb_order viewer) (Self.alpha self),
           [overlay (Cache.cvs_pos c) rgb (Viewer.get_rgb_order viewer)
              (Viewer.get_rgb_order viewer) (Self.alpha self)])).
Proof.
  intros Hi Ho Hc. split.
  - intros cut Hk Hw Hcut. unfold draw_image. rewrite Hk.
    rewrite (ImageP_draw_image_entry _ _ _ _ img Hi).
    rewrite (current_entry_lookup _ _ _ Hc).
    rewrite (common_draw_cached _ _ _ c w cut (Qle_bool_false _ _ Hw) Ho Hcut).
    cbn [fst snd]. rewrite Hcut, (store_same _ _ _ Hc). reflexivity.
  - intros cut idx rgb Hk Hw Hcut Hpre Hrgb. unfold draw_image. rewrite Hk.
    rewrite (NormImageP_draw_image_entry _ _ _ _ img Hi).
    rewrite (current_entry_lookup _ _ _ Hc).
    destruct (guards_above_two w Hw) as (Ha & Hb & Hc2).
    rewrite (common_draw_cached _ _ _ c w cut Ha Ho Hcut).
    cbn [fst snd]. rewrite Hcut.
    assert (Hn : normalise self viewer img w cut c [] = (c, rgb, [])).
    { unfold normalise. rewrite Ha, Hb, Hc2, Ho. cbn [orb negb].
      rewrite Hpre, Hrgb. reflexivity. }
    rewrite Hn. cbn [fst snd]. rewrite (store_same _ _ _ Hc). reflexivity.
Qed.

(** X10. A change of the colour map alone: a draw of a normalised object
    with [1 < whence <= 2], [optimize] on and a cutout and an index array
    in the viewer's entry runs the colour-mapping stage only; the cutout,
    the alpha plane and the index array stay, the colour array is mapped
    anew from the cached index array with the cached alpha plane, and it
    is what the draw composites. *)
Theorem colour_change_remaps_only self viewer dst w img c cut idx :
  Self.kind self = normimage_kind ->
  Self.image self = Some img ->
  Self.optimize self = true ->
  (1 < w)%Q -> (w <= 2)%Q ->
  Self._cache self !! Viewer.ident viewer = Some c ->
  Cache.cutout c = Some cut ->
  Cache.prergb c = Some idx ->
  let rgbmap :=
    match Self.rgbmap self with
    | Some m => m
    | None => Viewer.get_rgbmap viewer
    end in
  let rgbarr :=
    colour_map rgbmap (Viewer.get_rgb_order viewer) (get_order E img) idx
      (Cache.alpha c) in
  let r := draw_image self viewer dst w in
  Self._cache (object_after r) !! Viewer.ident viewer
  = Some (Cache.set_rgbarr (Some rgbarr) c)
  /\ trace_of r
     = [colormap_stage;
        overlay (Cache.cvs_pos c) rgbarr (Viewer.get_rgb_order viewer)
          (Viewer.get_rgb_order viewer) (Self.alpha self)].
Proof.
  intros Hk Hi Ho Hw1 Hw2 Hc Hcut Hpre. cbv zeta.
  unfold draw_image. rewrite Hk.
  rewrite (NormImageP_draw_image_entry _ _ _ _ img Hi).
  rewrite (current_entry_lookup _ _ _ Hc).
  assert (Ha : Qle_bool w 0 = false)
    by (apply Qle_bool_false; apply (Qlt_trans 0 1 w); [reflexivity | exact Hw1]).
  assert (Hb : Qle_bool w 1 = false) by (apply Qle_bool_false; exact Hw1).
  assert (Hc2 : Qle_bool w 2 = true) by (apply Qle_bool_true; exact Hw2).
  rewrite (common_draw_cached _ _ _ c w cut Ha Ho Hcut).
  cbn [fst snd]. rewrite Hcut.
  assert (Hn : normalise self viewer img w cut c []
               = (Cache.set_rgbarr
                    (Some (colour_map
                             match Self.rgbmap self with
                             | Some m => m
                             | None => Viewer.get_rgbmap viewer
                             end (Viewer.get_rgb_order viewer) (get_order E img) idx
                             (Cache.alpha c))) c,
                  colour_map
                    match Self.rgbmap self with
                    | Some m => m
                    | None => Viewer.get_rgbmap viewer
                    end (Viewer.get_rgb_order viewer) (get_order E img) idx
                    (Cache.alpha c),
                  [colormap_stage])).
  { unfold normalise. rewrite Ha, Hb, Hc2, Ho. cbn [orb negb].
    rewrite Hpre. destruct (Cache.rgbarr c); reflexivity. }
  rewrite Hn. unfold object_after, trace_of. cbn [fst snd].
  split; [apply store_lookup | reflexivity].
Qed.

End Reuse.

Lemma full_redraw_ignores_cache_witness :
  overlays (trace_of (draw_image (Self.set_cache ∅ Sample.drawn_object) Sample.viewer
                        Sample.canvas (-1)))
  = overlays (trace_of (draw_image Sample.drawn_object Sample.viewer Sample.canvas 0)).
Proof.
  apply (full_redraw_ignores_cache Sample.drawn_object Sample.viewer Sample.canvas
           0 (-1) ∅).
  left. split; discriminate.
Defined.

Lemma cached_draw_only_composites_witness :
  draw_image Sample.drawn_object Sample.viewer Sample.canvas 3
  = (Sample.drawn_object,
     composite Sample.canvas (4, 4) ([10; 20; 30; 255] : ndarray Sample.collab)
       "RGBA" "RGBA" 1%Q,
     [overlay (4, 4) ([10; 20; 30; 255] : ndarray Sample.collab) "RGBA" "RGBA" 1%Q]).
Proof.
  pose proof (cached_draw_only_composites Sample.drawn_object Sample.viewer
                Sample.canvas 3 Sample.pic Sample.drawn_entry
                eq_refl eq_refl eq_refl) as (_ & H).
  exact (H [10; 20; 30] [10; 20; 30] [10; 20; 30; 255]
           eq_refl eq_refl eq_refl eq_refl eq_refl).
Defined.

Lemma colour_change_remaps_only_witness :
  let r := draw_image Sample.drawn_object Sample.viewer Sample.canvas 2 in
  Self._cache (object_after r) !! 1%positive = Some Sample.drawn_entry
  /\ trace_of r
     = [colormap_stage;
        overlay (4, 4) ([10; 20; 30; 255] : ndarray Sample.collab) "RGBA" "RGBA" 1%Q].
Proof.
  exact (colour_change_remaps_only Sample.drawn_object Sample.viewer Sample.canvas 2
           Sample.pic Sample.drawn_entry [10; 20; 30] [10; 20; 30]
           eq_refl eq_refl eq_refl eq_refl
           (fun H : (2 ?= 2)%Q = Gt => ltac:(discriminate H))
           eq_refl eq_refl eq_refl).
Defined.

Section LateFirstDraw.
Context {E : Collab}.
Implicit Types (self : Self.t E) (viewer : Viewer.t E) (dst : dstarr E)
  (c : Cache.entry E) (w : Q) (tr : list (event E)).

(** X11. The alpha split is skipped by a first draw that is not a full
    one.  A draw of a normalised object with [optimize] on and
    [whence > 0], on an entry that is new or reset, cuts the image but
    does not split the alpha plane off: the entry has no alpha plane, its
    cutout is the whole cutout as the cutout stage made it, the index
    array is made from that whole cutout, and the colour array that is
    composited is the one of the colour mapper with no alpha plane put
    back, also for an image with an alpha channel. *)
Theorem late_first_draw_skips_alpha_split self viewer dst w img :
  Self.kind self = normimage_kind ->
  Self.image self = Some img ->
  Self.optimize self = true ->
  (0 < w)%Q ->
  is_reset self (current_entry self viewer) ->
  let rgbmap :=
    match Self.rgbmap self with
    | Some m => m
    | None => Viewer.get_rgbmap viewer
    end in
  let r := draw_image self viewer dst w in
  exists c',
    Self._cache (object_after r) !! Viewer.ident viewer = Some c'
    /\ Cache.alpha c' = None
    /\ Cache.cutout c' = Cache.cutout (_common_draw self viewer dst Cache.fresh 0).1
    /\ match Cache.cutout c' with
       | None => trace_of r = [cutout_stage]
       | Some data =>
           let idx := index_array self viewer rgbmap data in
           let rgbarr :=
             get_rgbarray E rgbmap idx (Viewer.get_rgb_order viewer) (get_order E img) in
           Cache.prergb c' = Some idx
           /\ Cache.rgbarr c' = Some rgbarr
           /\ trace_of r
              = [cutout_stage; visuals_stage; colormap_stage;
                 overlay (Cache.cvs_pos c') rgbarr (Viewer.get_rgb_order viewer)
                   (Viewer.get_rgb_order viewer) (Self.alpha self)]
       end.
Proof.
  intros Hk Hi Ho Hw (Hcu & _ & _ & Hrest). cbv zeta.
  destruct (Hrest Hk) as (Hal & Hpre & Hrgb).
  assert (Ha : Qle_bool w 0 = false) by (apply Qle_bool_false; exact Hw).
  assert (Hg : Qle_bool w 0
               || match Cache.cutout (current_entry self viewer) with
                  | None => true
                  | Some _ => false
                  end
               || negb (Self.optimize self) = true)
    by (rewrite Hcu; apply orb_true_iff; left; apply orb_true_r).
  pose proof (common_draw_fresh self viewer dst _ w img Hi Hg) as Hf.
  pose proof (common_draw_runs self viewer dst _ w img Hi Hg) as Ht.
  cbv zeta in Hf.
  unfold draw_image. rewrite Hk.
  rewrite (NormImageP_draw_image_entry _ _ _ _ img Hi). cbv zeta.
  destruct (_common_draw self viewer dst (current_entry self viewer) w) as [c1 tr1].
  cbn [fst snd] in *. subst tr1.
  destruct (Cache.cutout (_common_draw self viewer dst Cache.fresh 0).1) as [data|];
    subst c1; cbn [Cache.cutout Cache.set_cvs_pos Cache.set_cutout].
  - unfold normalise. rewrite Ha, Ho. cbn [orb negb].
    cbn [Cache.prergb Cache.set_cvs_pos Cache.set_cutout].
    rewrite Hpre.
    cbn [Cache.rgbarr Cache.set_cvs_pos Cache.set_cutout Cache.set_prergb].
    rewrite Hrgb.
    cbn [Cache.alpha Cache.set_cvs_pos Cache.set_cutout Cache.set_prergb].
    rewrite Hal. unfold object_after, trace_of. cbn [fst snd].
    eexists. split; [apply store_lookup|]. cbn. rewrite ?Hal.
    repeat split; reflexivity.
  - unfold object_after, trace_of. cbn [fst snd].
    eexists. split; [apply store_lookup|]. cbn. repeat split; assumption.
Qed.

End LateFirstDraw.

Lemma late_first_draw_skips_alpha_split_witness :
  let r := draw_image (Sample.object normimage_kind 5 5) Sample.viewer Sample.canvas 2 in
  exists c',
    Self._cache (object_after r) !! 1%positive = Some c'
    /\ Cache.alpha c' = None
    /\ Cache.cutout c' = Some ([10; 20; 30; 255] : ndarray Sample.collab)
    /\ Cache.prergb c' = Some ([10; 20; 30; 255] : ndarray Sample.collab).
Proof.
  intros r.
  destruct (late_first_draw_skips_alpha_split
              (Sample.object normimage_kind 5 5) Sample.viewer Sample.canvas 2 Sample.pic)
    as (c' & Hl & Ha & Hc & Hm); try reflexivity.
  - repeat split.
  - exists c'. split; [exact Hl|]. split; [exact Ha|].
    change (Cache.cutout c' = Some ([10; 20; 30; 255] : ndarray Sample.collab)) in Hc.
    split; [exact Hc|]. rewrite Hc in Hm. cbv zeta in Hm.
    destruct Hm as (Hp & _). exact Hp.
Defined.

(** ** The bounding box, in general *)

Section BoundingBox.

Lemma np_min_le_first (x : Q) (xs : list Q) : (Py.np_min x xs <= x)%Q.
Proof.
  unfold Py.np_min. revert x. induction xs as [|y xs IH]; intros x; cbn.
  - apply Qle_refl.
  - apply (Qle_trans _ (Qmin x y)); [apply IH | apply Q.le_min_l].
Qed.

Lemma np_min_le_each (x : Q) (xs : list Q) (y : Q) :
  In y xs -> (Py.np_min x xs <= y)%Q.
Proof.
  unfold Py.np_min. revert x. induction xs as [|z xs IH]; intros x Hy; cbn.
  - destruct Hy.
  - destruct Hy as [-> | Hy].
    + apply (Qle_trans _ (Qmin x y)); [apply np_min_le_first | apply Q.le_min_r].
    + apply IH. exact Hy.
Qed.

Lemma np_max_ge_first (x : Q) (xs : list Q) : (x <= Py.np_max x xs)%Q.
Proof.
  unfold Py.np_max. revert x. induction xs as [|y xs IH]; intros x; cbn.
  - apply Qle_refl.
  - apply (Qle_trans _ (Qmax x y)); [apply Q.le_max_l | apply IH].
Qed.

Lemma np_max_ge_each (x : Q) (xs : list Q) (y : Q) :
  In y xs -> (y <= Py.np_max x xs)%Q.
Proof.
  unfold Py.np_max. revert x. induction xs as [|z xs IH]; intros x Hy; cbn.
  - destruct Hy.
  - destruct Hy as [-> | Hy].
    + apply (Qle_trans _ (Qmax x y)); [apply Q.le_max_r | apply np_max_ge_first].
    + apply IH. exact Hy.
Qed.

(** Every corner lies between the least and the greatest coordinates. *)
Lemma corner_between (rect : BBox.polygon) (p : Q * Q) :
  In p (corners rect) ->
  (BBox.least_x rect <= p.1 <= BBox.greatest_x rect)%Q
  /\ (BBox.least_y rect <= p.2 <= BBox.greatest_y rect)%Q.
Proof.
  unfold corners, BBox.least_x, BBox.least_y, BBox.greatest_x, BBox.greatest_y,
    BBox.xs, BBox.ys.
  cbn [fst snd]. intros [<- | Hp].
  - repeat split; first [apply np_min_le_first | apply np_max_ge_first].
  - repeat split;
      first [ apply np_min_le_each; apply (in_map fst _ _ Hp)
            | apply np_min_le_each; apply (in_map snd _ _ Hp)
            | apply np_max_ge_each; apply (in_map fst _ _ Hp)
            | apply np_max_ge_each; apply (in_map snd _ _ Hp) ].
Qed.

Lemma int_le_ceil (a b : Q) : (a <= b)%Q -> Py.int a <= Py.ceil b.
Proof.
  intros Hab. destruct (Qlt_le_dec a 0) as [Hneg | Hpos].
  - rewrite (int_of_negative a Hneg). apply Qceiling_resp_le. exact Hab.
  - rewrite (int_of_nonnegative a Hpos). unfold Py.floor, Py.ceil.
    rewrite Zle_Qle.
    apply (Qle_trans _ a); [apply Qfloor_le|].
    apply (Qle_trans _ b); [exact Hab | apply Qle_ceiling].
Qed.

(** X12. The integer bounding box of the draw rectangle is never
    inverted ([xmin <= xmax], [ymin <= ymax]) and reaches every corner on
    the side of the greatest coordinates; on the side of the least
    coordinates it reaches every corner when the least coordinate is not
    negative. *)
Theorem bbox_covers_corners (rect : BBox.polygon) :
  BBox.xmin rect <= BBox.xmax rect
  /\ BBox.ymin rect <= BBox.ymax rect
  /\ (forall p, In p (corners rect) ->
        (p.1 <= inject_Z (BBox.xmax rect))%Q /\ (p.2 <= inject_Z (BBox.ymax rect))%Q)
  /\ ((0 <= BBox.least_x rect)%Q ->
      forall p, In p (corners rect) -> (inject_Z (BBox.xmin rect) <= p.1)%Q)
  /\ ((0 <= BBox.least_y rect)%Q ->
      forall p, In p (corners rect) -> (inject_Z (BBox.ymin rect) <= p.2)%Q).
Proof.
  assert (Hfirst : In (BBox.first_pt rect) (corners rect)) by (left; reflexivity).
  destruct (corner_between rect _ Hfirst) as [[Hx1 Hx2] [Hy1 Hy2]].
  split; [apply int_le_ceil; apply (Qle_trans _ _ _ Hx1 Hx2)|].
  split; [apply int_le_ceil; apply (Qle_trans _ _ _ Hy1 Hy2)|].
  split.
  { intros p Hp. destruct (corner_between rect p Hp) as [[_ Hx] [_ Hy]].
    split.
    - apply (Qle_trans _ _ _ Hx). apply Qle_ceiling.
    - apply (Qle_trans _ _ _ Hy). apply Qle_ceiling. }
  split.
  - intros Hpos p Hp. destruct (corner_between rect p Hp) as [[Hx _] _].
    unfold BBox.xmin. rewrite (int_of_nonnegative _ Hpos).
    apply (Qle_trans _ (BBox.least_x rect)); [apply Qfloor_le | exact Hx].
  - intros Hpos p Hp. destruct (corner_between rect p Hp) as [_ [Hy _]].
    unfold BBox.ymin. rewrite (int_of_nonnegative _ Hpos).
    apply (Qle_trans _ (BBox.least_y rect)); [apply Qfloor_le | exact Hy].
Qed.

End BoundingBox.

Lemma bbox_covers_corners_witness :
  (inject_Z (BBox.xmin (Viewer.get_draw_rect Sample.panned)) <= 499 # 2)%Q
  /\ (inject_Z (BBox.ymin (Viewer.get_draw_rect Sample.panned)) <= 399 # 2)%Q.
Proof.
  pose proof (bbox_covers_corners (Viewer.get_draw_rect Sample.panned))
    as (_ & _ & _ & Hx & Hy).
  split.
  - apply (Hx ltac:(discriminate) (499 # 2, 399 # 2)%Q). right. left. reflexivity.
  - apply (Hy ltac:(discriminate) (499 # 2, 399 # 2)%Q). right. left. reflexivity.
Defined.

(** ** The box of an image and its edit points *)

Section Geometry.
Context {E : Collab}.
Implicit Types (self : Self.t E) (viewer : Viewer.t E).

Lemma map_lookup_at {A B : Type} (f : A -> B) (l : list A) (k : nat) :
  map f l !! k = f <$> (l !! k).
Proof.
  revert k. induction l as [|a l IH]; intros [|k]; cbn; try reflexivity.
  apply IH.
Qed.

(** X13. [contains_pts] answers point by point, and what it describes is
    a box.  It raises when it is given no point; when it returns there is
    one answer for each point, the answer that the point gets when it is
    asked about alone; and with two points it contains every point that
    lies between them in both coordinates. *)
Theorem contains_pts_describes_a_box self :
  contains_pts self [] = None
  /\ (forall pts answers,
        contains_pts self pts = Some answers ->
        length answers = length pts
        /\ (forall k p, pts !! k = Some p ->
              exists b, answers !! k = Some b /\ contains_pts self [p] = Some [b]))
  /\ (forall p q r,
        contains_pts self [p; q] = Some [true; true] ->
        (Qmin p.1 q.1 <= r.1 <= Qmax p.1 q.1)%Q ->
        (Qmin p.2 q.2 <= r.2 <= Qmax p.2 q.2)%Q ->
        contains_pts self [r] = Some [true]).
Proof.
  split; [reflexivity|]. unfold contains_pts. split.
  - intros pts answers H.
    destruct (get_llur self) as [[[[x1 y1] x2] y2]|]; [|destruct pts; discriminate].
    assert (Ha : answers
                 = map (fun p : Q * Q =>
                          (Qle_bool x1 p.1 && Qle_bool p.1 x2)
                          && (Qle_bool y1 p.2 && Qle_bool p.2 y2)) pts)
      by (destruct pts; [discriminate | injection H as <-; reflexivity]).
    subst answers. split; [apply length_map|].
    intros k p Hk. rewrite map_lookup_at, Hk. eexists. split; reflexivity.
  - intros p q r.
    destruct (get_llur self) as [[[[x1 y1] x2] y2]|]; [|discriminate].
    cbn [map]. intros [= Hp Hq] [Hx1 Hx2] [Hy1 Hy2].
    apply andb_true_iff in Hp as [Hpx Hpy], Hq as [Hqx Hqy].
    apply andb_true_iff in Hpx as [Hpx1 Hpx2], Hpy as [Hpy1 Hpy2].
    apply andb_true_iff in Hqx as [Hqx1 Hqx2], Hqy as [Hqy1 Hqy2].
    apply Qle_bool_iff in Hpx1, Hpx2, Hpy1, Hpy2, Hqx1, Hqx2, Hqy1, Hqy2.
    do 2 f_equal.
    rewrite !Qle_bool_true; [reflexivity | idtac ..];
      first
        [ apply (Qle_trans _ (Qmin p.1 q.1)); [apply Q.min_glb; assumption | assumption]
        | apply (Qle_trans _ (Qmax p.1 q.1)); [assumption | apply Q.max_lub; assumption]
        | apply (Qle_trans _ (Qmin p.2 q.2)); [apply Q.min_glb; assumption | assumption]
        | apply (Qle_trans _ (Qmax p.2 q.2)); [assumption | apply Q.max_lub; assumption] ].
Qed.

(** X14. The edit points and the indices of [set_edit_point] agree:
    [get_edit_points] gives four points, one for each index that
    [set_edit_point] accepts and for no other; the first is the centre,
    the one to move by, and the last is the third corner of [get_points],
    the one that scales both ways. *)
Theorem edit_points_match_indices self viewer pts :
  get_edit_points self viewer = Some pts ->
  (forall i pt detail,
     Py.is_raised (set_edit_point i pt detail self).1 = false
     <-> 0 <= i < Z.of_nat (length pts))
  /\ (exists c corner,
        get_center_pt self = Some c
        /\ (get_points self ≫= (.!! 2%nat)) = Some corner
        /\ edit_point_xy <$> (pts !! 0%nat) = Some c
        /\ edit_point_xy <$> (pts !! 3%nat) = Some corner).
Proof.
  unfold get_edit_points, get_points. intros Hp.
  destruct (get_coords self) as [[[[x1 y1] x2] y2]|]; [|discriminate].
  destruct (get_center_pt self) as [[cx cy]|] eqn:Hctr; [|discriminate].
  injection Hp as <-. split.
  - intros i pt detail. cbn [length]. unfold set_edit_point.
    destruct (calc_dual_scale_from_pt E pt detail) as [fx fy].
    destruct (Z.eqb_spec i 0) as [-> | H0].
    { unfold mbind, method_bind, self_move_to_pt. rewrite Hctr.
      cbn. split; [lia | reflexivity]. }
    destruct (Z.eqb_spec i 1) as [-> | H1]; [cbn; split; [lia | reflexivity]|].
    destruct (Z.eqb_spec i 2) as [-> | H2]; [cbn; split; [lia | reflexivity]|].
    destruct (Z.eqb_spec i 3) as [-> | H3]; [cbn; split; [lia | reflexivity]|].
    cbn. split; [discriminate | lia].
  - eexists _, _. repeat split.
Qed.

End Geometry.

(** The size in pixels is what [int] makes of the rounded product.  The
    float 0.3 is a little less than three tenths, and ten times its exact
    value truncates to 2; the product as a float is 3.0, and ten pixels at
    that scale are three pixels.  Three pixels at 0.3333333333333333 are
    one pixel.  A product beyond the largest float has no size. *)
Example get_scaled_wdht_rounds_first :
  let three_tenths := (5404319552844595 # 18014398509481984)%Q in
  let a_third := (6004799503160661 # 18014398509481984)%Q in
  Py.int (10 * three_tenths)%Q = 2
  /\ get_scaled_wdht (set_scale three_tenths (3 # 10) Sample.drawn_object)
     = Some (3, 3)
  /\ Py.int_of_product 3 a_third = Some 1
  /\ get_scaled_wdht (set_scale (inject_Z (2 ^ 1023)) 1 Sample.drawn_object) = None.
Proof. repeat split. Qed.

Lemma contains_pts_describes_a_box_witness :
  contains_pts Sample.drawn_object [(9, 9)%Q] = Some [true]
  /\ (exists b, [true; false; true] !! 1%nat = Some b
                /\ contains_pts Sample.drawn_object [(15, 9)%Q] = Some [b]).
Proof.
  pose proof (contains_pts_describes_a_box Sample.drawn_object) as (_ & H2 & H3).
  split.
  - apply (H3 (5, 14)%Q (14, 5)%Q (9, 9)%Q); [reflexivity|split; discriminate..].
  - destruct (H2 [(5, 5); (15, 9); (14, 14)]%Q [true; false; true] eq_refl) as (_ & Hk).
    exact (Hk 1%nat (15, 9)%Q eq_refl).
Defined.

Lemma edit_points_match_indices_witness :
  Py.is_raised (set_edit_point 3 (6, 6)%Q Sample.detail Sample.drawn_object).1 = false
  /\ (Py.is_raised (set_edit_point 4 (6, 6)%Q Sample.detail Sample.drawn_object).1
      = false -> False).
Proof.
  pose proof (edit_points_match_indices Sample.drawn_object Sample.viewer
                [MovePoint (19 # 2) (19 # 2); Point 14 (19 # 2);
                 Point (19 # 2) 14; Point 14 14]%Q eq_refl)
    as (H & _).
  split.
  - apply (H 3 (6, 6)%Q Sample.detail). cbn. lia.
  - intros H4. apply (H 4 (6, 6)%Q Sample.detail) in H4. cbn in H4. lia.
Defined.

(** ** The z-order *)

Section ZOrder.
Context {E : Collab}.
Implicit Types (self : Self.t E).

Lemma calls_on_notified (v : positive) (viewers : list positive) :
  NoDup viewers ->
  calls_on v (flat_map (fun viewer => [(viewer, reorder_layers); (viewer, redraw 2)])
                viewers)
  = if bool_decide (v ∈ viewers) then [reorder_layers; redraw 2] else [].
Proof.
  unfold calls_on. induction 1 as [|k ks Hk Hnd IH]; [reflexivity|].
  cbn [flat_map app]. rewrite !filter_cons. cbn [fst].
  destruct (decide (k = v)) as [-> | Hne].
  - rewrite !decide_True by (apply bool_decide_pack; reflexivity).
    cbn [map snd]. rewrite IH.
    rewrite (bool_decide_eq_false_2 _ Hk).
    rewrite bool_decide_eq_true_2 by (left). reflexivity.
  - rewrite !decide_False by (intros H; apply bool_decide_unpack in H; congruence).
    rewrite IH.
    assert (Hb : bool_decide (v ∈ ks) = bool_decide (v ∈ k :: ks)).
    { apply bool_decide_ext. rewrite elem_of_cons.
      split; [auto | intros [? | ?]; [congruence | assumption]]. }
    rewrite Hb. reflexivity.
Qed.

(** X15. [set_zorder] stores the z-order, which [get_zorder] then
    returns, and tells every viewer that has an entry in the cache, and no
    other, to reorder its layers and then to redraw with [whence = 2],
    once each; it does not touch the cache, the image or the geometry. *)
Theorem set_zorder_notifies_cached_viewers (zorder : Z) self :
  let r := set_zorder zorder self in
  get_zorder r.1 = zorder
  /\ Self._cache r.1 = Self._cache self
  /\ Self.image r.1 = Self.image self
  /\ position r.1 = position self
  /\ Self.scale_x r.1 = Self.scale_x self
  /\ Self.scale_y r.1 = Self.scale_y self
  /\ forall v,
       calls_on v r.2
       = match Self._cache self !! v with
         | Some _ => [reorder_layers; redraw 2]
         | None => []
         end.
Proof.
  cbv zeta. unfold set_zorder. cbn [fst snd].
  repeat (split; [reflexivity|]).
  intros v. rewrite calls_on_notified by apply NoDup_fst_map_to_list.
  destruct (Self._cache self !! v) as [c|] eqn:Hc.
  - rewrite bool_decide_eq_true_2; [reflexivity|].
    apply list_elem_of_fmap. exists (v, c). split; [reflexivity|].
    apply elem_of_map_to_list. exact Hc.
  - rewrite bool_decide_eq_false_2; [reflexivity|].
    intros Hin. apply list_elem_of_fmap in Hin as ([v' c] & -> & Hin).
    apply elem_of_map_to_list in Hin. cbn in Hc. congruence.
Qed.

End ZOrder.

(** ** [draw] and the redraw it asks for *)

Section Draw.
Context {E : Collab}.
Variable get_cpoints : Self.t E -> Viewer.t E -> list (Q * Q).
Implicit Types (self : Self.t E) (viewer : Viewer.t E) (dst : dstarr E)
  (o : outline) (w : Q).

Lemma draw_by_entry o self viewer :
  let c := current_entry self viewer in
  let c' := if Cache.drawn c then c else Cache.set_drawn true c in
  draw get_cpoints o self viewer
  = (store viewer c' self,
     (if Cache.drawn c then [] else [viewer_redraw 2])
     ++ strokes o (get_cpoints (store viewer c' self) viewer)).
Proof.
  cbv zeta. unfold draw, strokes.
  pose proof (get_cache_entry self viewer) as He.
  pose proof (store_get_cache self viewer) as Hs.
  destruct (get_cache self viewer) as [c0 s0]. cbn [fst snd] in *. subst c0.
  destruct (Cache.drawn (current_entry self viewer)); cbn [negb];
    rewrite Hs; destruct (0 <? linewidth o), (showcap o); reflexivity.
Qed.

Lemma no_redraw_in_strokes o cpoints w : viewer_redraw w ∉ strokes o cpoints.
Proof.
  unfold strokes. destruct (0 <? linewidth o), (showcap o); cbn;
    repeat (rewrite elem_of_cons || rewrite elem_of_nil);
    intuition discriminate.
Qed.

Lemma draw_image_drawn_flag self viewer dst w :
  Cache.drawn (current_entry (object_after (draw_image self viewer dst w)) viewer)
  = Cache.drawn (current_entry self viewer).
Proof.
  destruct (Self.image self) as [img|] eqn:Hi.
  - destruct (draw_image_by_entry self viewer dst w img Hi) as (Ho & _).
    cbv zeta in Ho. rewrite Ho, current_entry_store.
    apply draw_entry_shape.
  - rewrite (draw_image_without_image self viewer dst w Hi). reflexivity.
Qed.

(** X16. [draw] asks the viewer for a redraw, with [whence = 2], exactly
    when the [drawn] flag of the viewer's entry is not set, and sets it;
    it changes nothing else in the entry.  So the first [draw] on a new or
    reset entry asks once, and a later [draw] does not ask again, also
    with a [draw_image] in between; after [reset_optimize] the next [draw]
    asks again. *)
Theorem draw_asks_for_one_redraw o self viewer dst w :
  let d1 := draw get_cpoints o self viewer in
  Self._cache d1.1 !! Viewer.ident viewer
  = Some (Cache.set_drawn true (current_entry self viewer))
  /\ (Cache.drawn (current_entry self viewer) = false ->
      exists rest, d1.2 = viewer_redraw 2 :: rest
                   /\ forall w', viewer_redraw w' ∉ rest)
  /\ (Cache.drawn (current_entry self viewer) = true ->
      forall w', viewer_redraw w' ∉ d1.2)
  /\ (forall w', viewer_redraw w' ∉ (draw get_cpoints o d1.1 viewer).2)
  /\ (forall w',
        viewer_redraw w'
        ∉ (draw get_cpoints o (object_after (draw_image d1.1 viewer dst w)) viewer).2)
  /\ (exists rest,
        (draw get_cpoints o (reset_optimize d1.1) viewer).2 = viewer_redraw 2 :: rest).
Proof.
  cbv zeta.
  assert (Hset : Self._cache (draw get_cpoints o self viewer).1 !! Viewer.ident viewer
                 = Some (Cache.set_drawn true (current_entry self viewer))).
  { pose proof (draw_by_entry o self viewer) as Hd. cbv zeta in Hd. rewrite Hd.
    cbn [fst]. rewrite store_lookup.
    destruct (current_entry self viewer) as [cu al pre rgb dr pos].
    destruct dr; reflexivity. }
  assert (Hflag : Cache.drawn (current_entry (draw get_cpoints o self viewer).1 viewer)
                  = true)
    by (rewrite (current_entry_lookup _ _ _ Hset); reflexivity).
  assert (Hquiet : forall s, Cache.drawn (current_entry s viewer) = true ->
                     forall w', viewer_redraw w' ∉ (draw get_cpoints o s viewer).2).
  { intros s Hs w'. pose proof (draw_by_entry o s viewer) as Hd.
    cbv zeta in Hd. rewrite Hd, Hs. cbn [snd app]. apply no_redraw_in_strokes. }
  split; [exact Hset|].
  split.
  { intros Hn. pose proof (draw_by_entry o self viewer) as Hd.
    cbv zeta in Hd. rewrite Hd, Hn. cbn [snd app].
    eexists. split; [reflexivity|]. intros w'. apply no_redraw_in_strokes. }
  split; [apply Hquiet|].
  split; [apply Hquiet; exact Hflag|].
  split.
  { apply Hquiet. rewrite draw_image_drawn_flag. exact Hflag. }
  pose proof (draw_by_entry o (reset_optimize (draw get_cpoints o self viewer).1) viewer)
    as Hd.
  cbv zeta in Hd. rewrite Hd.
  assert (Hr : Cache.drawn
                 (current_entry (reset_optimize (draw get_cpoints o self viewer).1) viewer)
               = false).
  { unfold current_entry. rewrite reset_optimize_lookup, Hset. cbn.
    unfold _reset_cache. destruct (Self.kind _); reflexivity. }
  rewrite Hr. cbn [snd app]. eexists. reflexivity.
Qed.

End Draw.

Lemma draw_asks_for_one_redraw_witness :
  let cpoints := fun (s : Self.t Sample.collab) (_ : Viewer.t Sample.collab) =>
                   default [] (get_points s) in
  let o := {| linewidth := 1; showcap := false |} in
  (draw cpoints o Sample.drawn_object Sample.viewer).2
  = [viewer_redraw 2; setup_cr;
     draw_polygon [(5, 5); (5 + 10 - 1, 5); (5 + 10 - 1, 5 + 10 - 1); (5, 5 + 10 - 1)]%Q]
  /\ forall w',
       viewer_redraw w'
       ∉ (draw cpoints o (draw cpoints o Sample.drawn_object Sample.viewer).1
            Sample.viewer).2.
Proof.
  intros cpoints o. split; [reflexivity|].
  pose proof (draw_asks_for_one_redraw cpoints o Sample.drawn_object Sample.viewer
                Sample.canvas 3) as (_ & H1 & _ & H2 & _).
  exact H2.
Defined.

(** ** Scaling *)

Section Scaling.
Context {E : Collab}.
Implicit Types (self : Self.t E).

Lemma reset_cache_twice self self' (c : Cache.entry E) :
  Self.kind self' = Self.kind self ->
  _reset_cache self' (_reset_cache self c) = _reset_cache self c.
Proof.
  intros Hk. unfold _reset_cache. rewrite Hk. destruct (Self.kind self); reflexivity.
Qed.

(** X17. [scale_by_factors] takes the first two factors and ignores the
    rest: it multiplies the two scales, resets the cache of every viewer,
    keeps the position, and does what [scale_by] of the normalised class
    does with the two factors.  With fewer than two factors it raises
    [ValueError] and leaves the object as it was, caches included.
    Scaling twice multiplies the factors and resets the cache as a single
    scaling does. *)
Theorem scale_by_factors_takes_two self :
  (forall factors, (length factors < 2)%nat ->
     exists msg, scale_by_factors factors self = (Py.Raised (Py.ValueError msg), self))
  /\ (forall sx sy more,
        let r := scale_by_factors (sx :: sy :: more) self in
        r.1 = Py.Returned tt
        /\ r.2 = NormImageP_scale_by sx sy self
        /\ Self.scale_x r.2 = (Self.scale_x self * sx)%Q
        /\ Self.scale_y r.2 = (Self.scale_y self * sy)%Q
        /\ position r.2 = position self
        /\ caches_reset self r.2)
  /\ (forall fx fy gx gy,
        let once := NormImageP_scale_by fx fy self in
        let twice := NormImageP_scale_by gx gy once in
        (Self.scale_x twice == Self.scale_x self * (fx * gx))%Q
        /\ (Self.scale_y twice == Self.scale_y self * (fy * gy))%Q
        /\ Self._cache twice = Self._cache once).
Proof.
  split; [|split].
  - intros [|f [|g more]] Hlen; cbn in Hlen; try lia; eexists; reflexivity.
  - intros sx sy more. cbv zeta.
    split; [reflexivity|]. split; [reflexivity|]. split; [reflexivity|].
    split; [reflexivity|]. split; [reflexivity|].
    apply (caches_reset_kind
             (Self.set_scale_y (Self.scale_y self * sy)%Q
                (Self.set_scale_x (Self.scale_x self * sx)%Q self)));
      [reflexivity | reflexivity | apply reset_optimize_resets].
  - intros fx fy gx gy. cbv zeta.
    split; [cbn; ring|]. split; [cbn; ring|].
    unfold NormImageP_scale_by. cbn. rewrite <- map_fmap_compose.
    apply map_fmap_ext. intros v c _. cbn. apply reset_cache_twice. reflexivity.
Qed.

End Scaling.

Lemma scale_by_factors_takes_two_witness :
  (exists msg,
     scale_by_factors [2%Q] Sample.drawn_object
     = (Py.Raised (Py.ValueError msg), Sample.drawn_object))
  /\ Self.scale_x (scale_by_factors [2; 3; 4]%Q Sample.drawn_object).2 = (1 * 2)%Q.
Proof.
  pose proof (scale_by_factors_takes_two Sample.drawn_object) as (H1 & H2 & _).
  split.
  - apply (H1 [2%Q]). cbn. lia.
  - destruct (H2 2%Q 3%Q [4%Q]) as (_ & _ & Hx & _). exact Hx.
Defined.

(** ** Objects without an image, new objects, small images *)

Section Edges.
Context {E : Collab}.
Implicit Types (self : Self.t E) (viewer : Viewer.t E) (dst : dstarr E) (w : Q).

(** X18. Taking the image away: after [set_image(None)], which makes the
    ['image-set'] callback with [None] and resets the caches,
    [draw_image] does nothing at all for any viewer and any [whence] (no
    stage, no call of the compositor, the object and the destination
    untouched, no cache entry made), while the methods that need the size
    of the image ([get_scaled_wdht], [get_coords], [get_llur],
    [get_center_pt], [get_points], [contains_pts], [get_edit_points])
    fail. *)
Theorem without_image_nothing_is_drawn self viewer dst w :
  let s := set_image self None in
  get_image s = None
  /\ last (Self.made_callbacks s) = Some ("image-set"%string, None)
  /\ caches_reset self s
  /\ draw_image s viewer dst w = (s, dst, [])
  /\ get_scaled_wdht s = None
  /\ get_coords s = None
  /\ get_llur s = None
  /\ get_center_pt s = None
  /\ get_points s = None
  /\ (forall pts, contains_pts s pts = None)
  /\ get_edit_points s viewer = None.
Proof.
  cbv zeta.
  assert (Hset : set_image self None = ImageP_set_image self None)
    by (unfold set_image; destruct (Self.kind self); reflexivity).
  rewrite Hset.
  assert (Hi : Self.image (ImageP_set_image self None) = None) by reflexivity.
  assert (Hw : get_scaled_wdht (ImageP_set_image self None) = None)
    by (unfold get_scaled_wdht; rewrite Hi; reflexivity).
  assert (Hc : get_coords (ImageP_set_image self None) = None).
  { unfold get_coords. rewrite Hw. destruct (to_data E _); reflexivity. }
  split; [exact Hi|].
  split; [unfold ImageP_set_image, make_callback; cbn; apply last_snoc|].
  split.
  { apply (caches_reset_kind (Self.set_image None self));
      [reflexivity | reflexivity | apply reset_optimize_resets]. }
  split; [apply draw_image_without_image; exact Hi|].
  split; [exact Hw|]. split; [exact Hc|]. split; [exact Hc|].
  split; [unfold get_center_pt; rewrite Hw; reflexivity|].
  split; [unfold get_points; rewrite Hc; reflexivity|].
  split; [intros pts; unfold contains_pts, get_llur; rewrite Hc;
          destruct pts; reflexivity|].
  unfold get_edit_points. rewrite Hc. reflexivity.
Qed.

(** X19. An image that is one pixel wide or one pixel high is never
    drawn while it is in full view: the clip then gives back the whole
    image, whose extent [a2 - a1] or [b2 - b1] is zero, so a draw on an
    entry without a cutout takes the image to be off the screen; it
    composites nothing and leaves the entry without a cutout, and so does
    every draw after it. *)
Theorem one_pixel_image_is_never_drawn self viewer dst w img :
  Self.image self = Some img ->
  img_width E img = 1 \/ img_height E img = 1 ->
  in_full_view self viewer img ->
  no_cutout self viewer ->
  let r := draw_image self viewer dst w in
  overlays (trace_of r) = []
  /\ canvas_after r = dst
  /\ no_cutout (object_after r) viewer
  /\ in_full_view (object_after r) viewer img.
Proof.
  intros Hi Hone Hview Hn. cbv zeta.
  assert (Hc : _common_draw self viewer dst (current_entry self viewer) w
               = (Cache.set_cutout None (current_entry self viewer), [cutout_stage])).
  { unfold in_full_view in Hview.
    eapply (common_draw_offscreen _ _ _ _ _ img); [exact Hi | | exact Hview |].
    - right. left. apply no_cutout_current_entry. exact Hn.
    - destruct Hone as [-> | ->]; [left | right]; cbn; discriminate. }
  assert (Hr : draw_image self viewer dst w
               = (store viewer (Cache.set_cutout None (current_entry self viewer)) self,
                  dst, [cutout_stage])).
  { unfold draw_image. destruct (Self.kind self).
    - rewrite (ImageP_draw_image_entry _ _ _ _ img Hi). rewrite Hc. reflexivity.
    - rewrite (NormImageP_draw_image_entry _ _ _ _ img Hi). rewrite Hc. reflexivity. }
  rewrite Hr. unfold object_after, canvas_after, trace_of. cbn [fst snd].
  split; [reflexivity|]. split; [reflexivity|]. split.
  - intros c Hl. rewrite store_lookup in Hl. injection Hl as <-. reflexivity.
  - unfold in_full_view in *. destruct self. exact Hview.
Qed.

Lemma current_entry_other_viewer self v1 v2 c :
  Viewer.ident v1 <> Viewer.ident v2 ->
  current_entry (store v1 c self) v2 = current_entry self v2.
Proof.
  intros Hne. unfold current_entry, store. cbn.
  rewrite lookup_insert_ne by exact Hne.
  destruct self; reflexivity.
Qed.

(** X20. Draws for two viewers do not interfere: each leaves in its own
    entry, and composites, what it would without the other, so the object
    after both draws is the same in either order. *)
Theorem draws_for_two_viewers_commute self v1 v2 dst1 dst2 w1 w2 :
  Viewer.ident v1 <> Viewer.ident v2 ->
  let first1 := draw_image self v1 dst1 w1 in
  let then2 := draw_image (object_after first1) v2 dst2 w2 in
  let first2 := draw_image self v2 dst2 w2 in
  let then1 := draw_image (object_after first2) v1 dst1 w1 in
  object_after then2 = object_after then1
  /\ overlays (trace_of then2) = overlays (trace_of first2)
  /\ overlays (trace_of then1) = overlays (trace_of first1).
Proof.
  intros Hne. cbv zeta.
  destruct (Self.image self) as [img|] eqn:Hi.
  - assert (Hstep : forall va vb dsta dstb wa wb,
              Viewer.ident va <> Viewer.ident vb ->
              object_after (draw_image (object_after (draw_image self va dsta wa))
                              vb dstb wb)
              = store vb (draw_entry self vb dstb img wb (current_entry self vb)).1
                  (store va (draw_entry self va dsta img wa (current_entry self va)).1
                     self)
              /\ overlays (trace_of (draw_image (object_after (draw_image self va dsta wa))
                                       vb dstb wb))
                 = overlays (trace_of (draw_image self vb dstb wb))).
    { intros va vb dsta dstb wa wb Hab.
      destruct (draw_image_by_entry self va dsta wa img Hi) as (Hoa & _).
      destruct (draw_image_by_entry self vb dstb wb img Hi) as (_ & Hvb & _).
      cbv zeta in Hoa, Hvb. rewrite Hoa.
      set (ea := (draw_entry self va dsta img wa (current_entry self va)).1).
      assert (Hia : Self.image (store va ea self) = Some img) by exact Hi.
      destruct (draw_image_by_entry (store va ea self) vb dstb wb img Hia)
        as (Ho & Hv & _).
      cbv zeta in Ho, Hv. rewrite Ho, Hv, Hvb.
      rewrite (current_entry_other_viewer self va vb ea Hab).
      unfold store at 2 4.
      rewrite (draw_entry_same_attributes _ self vb dstb dstb img wb _ eq_refl).
      split; [reflexivity|]. destruct self; reflexivity. }
    destruct (Hstep v1 v2 dst1 dst2 w1 w2 Hne) as [Ho12 Hv12].
    destruct (Hstep v2 v1 dst2 dst1 w2 w1 (not_eq_sym Hne)) as [Ho21 Hv21].
    rewrite Ho12, Ho21, Hv12, Hv21. split; [|split; reflexivity].
    unfold store. cbn.
    rewrite (insert_insert_ne _ (Viewer.ident v2) (Viewer.ident v1)) by congruence.
    destruct self; reflexivity.
  - rewrite (draw_image_without_image self v1 dst1 w1 Hi).
    rewrite (draw_image_without_image self v2 dst2 w2 Hi).
    unfold object_after. cbn [fst snd].
    rewrite (draw_image_without_image self v1 dst1 w1 Hi).
    rewrite (draw_image_without_image self v2 dst2 w2 Hi).
    repeat split.
Qed.

(** X21. A new object of either class has an empty cache and z-order 0.
    Its first draw for a viewer, whatever [whence] is, cuts the image and
    makes the one entry of the dictionary, the entry of that viewer. *)
Theorem new_object_first_draw viewer dst w img :
  let first_draw (s : Self.t E) :=
    (forall v, in_cache s v = false)
    /\ get_zorder s = 0
    /\ in_cache (object_after (draw_image s viewer dst w)) viewer = true
    /\ size (Self._cache (object_after (draw_image s viewer dst w))) = 1%nat
    /\ exists rest, trace_of (draw_image s viewer dst w) = cutout_stage :: rest in
  (forall pt alpha sx sy interp flipy optimize,
     first_draw (ImageP_init pt (Some img) alpha sx sy interp flipy optimize))
  /\ (forall pt alpha sx sy interp cuts optimize rgbmap autocuts,
        first_draw (NormImageP_init pt (Some img) alpha sx sy interp cuts optimize
                      rgbmap autocuts)).
Proof.
  cbv zeta.
  assert (Hnew : forall s : Self.t E,
             Self._cache s = ∅ -> Self.image s = Some img -> Self._zorder s = 0 ->
             (forall v, in_cache s v = false)
             /\ get_zorder s = 0
             /\ in_cache (object_after (draw_image s viewer dst w)) viewer = true
             /\ size (Self._cache (object_after (draw_image s viewer dst w))) = 1%nat
             /\ exists rest, trace_of (draw_image s viewer dst w) = cutout_stage :: rest).
  { intros s Hc Hi Hz.
    destruct (draw_image_by_entry s viewer dst w img Hi) as (Ho & _).
    cbv zeta in Ho.
    split; [intros v; apply in_cache_false; rewrite Hc; apply lookup_empty|].
    split; [exact Hz|].
    split; [apply in_cache_true; rewrite Ho, store_lookup; eauto|].
    split.
    - rewrite Ho. unfold store. cbn. rewrite Hc.
      rewrite map_size_insert_None by apply lookup_empty.
      rewrite map_size_empty. reflexivity.
    - apply (no_cutout_runs_cutout_stage _ _ _ _ img Hi).
      intros c Hl. rewrite Hc, lookup_empty in Hl. discriminate. }
  split; intros; apply Hnew; reflexivity.
Qed.

End Edges.

Lemma one_pixel_image_is_never_drawn_witness :
  let thin : image_t Sample.collab :=
    {| Sample.width := 1; Sample.height := 10; Sample.order := "RGBA";
       Sample.data := [10; 20; 30; 255] |} in
  let s := set_image (Sample.object normimage_kind 5 5) (Some thin) in
  overlays (trace_of (draw_image s Sample.viewer Sample.canvas 0)) = []
  /\ canvas_after (draw_image s Sample.viewer Sample.canvas 0) = Sample.canvas.
Proof.
  intros thin s.
  destruct (one_pixel_image_is_never_drawn s Sample.viewer Sample.canvas 0 thin)
    as (H1 & H2 & _).
  - reflexivity.
  - left. reflexivity.
  - reflexivity.
  - intros c Hc. cbn in Hc. rewrite fmap_empty, lookup_empty in Hc. discriminate.
  - split; assumption.
Defined.

Lemma draws_for_two_viewers_commute_witness :
  let other : Viewer.t Sample.collab := {|
    Viewer.ident := 2%positive;
    Viewer.get_draw_rect := Viewer.get_draw_rect Sample.viewer;
    Viewer.get_scale_xy := (2, 2)%Q;
    Viewer.get_pan := (25, 25)%Q;
    Viewer.data_off := (1 # 2)%Q;
    Viewer.get_rgb_order := "RGB";
    Viewer.get_rgbmap := (256 : rgbmap_t Sample.collab);
    Viewer.get_settings := ∅;
    Viewer.autocuts := (tt : autocuts_t Sample.collab);
    Viewer.t_cuts := (0, 255)%Q
  |} in
  object_after (draw_image (object_after (draw_image Sample.drawn_object Sample.viewer
                                            Sample.canvas 1)) other Sample.canvas 0)
  = object_after (draw_image (object_after (draw_image Sample.drawn_object other
                                              Sample.canvas 0)) Sample.viewer
                    Sample.canvas 1).
Proof.
  intros other.
  apply (draws_for_two_viewers_commute Sample.drawn_object Sample.viewer other
           Sample.canvas Sample.canvas 1 0).
  discriminate.
Defined.

(** ** Where the image is composited *)

Section Placement.
Context {E : Collab}.
Implicit Types (self : Self.t E) (viewer : Viewer.t E) (dst : dstarr E) (w : Q).

Lemma round_Qeq (x y : Q) : (x == y)%Q -> Py.round x = Py.round y.
Proof.
  intros H. unfold Py.round.
  assert (Hf : Qfloor x = Qfloor y) by (apply Qfloor_comp; exact H).
  assert (Hc : (x - inject_Z (Qfloor y) ?= 1 # 2)%Q
               = (y - inject_Z (Qfloor y) ?= 1 # 2)%Q).
  { apply Qcompare_comp; [|reflexivity].
    unfold Qminus. apply Qplus_comp; [exact H | reflexivity]. }
  rewrite Hf, Hc. reflexivity.
Qed.

Lemma round_of_integer (k : Z) : Py.round (inject_Z k) = k.
Proof.
  unfold Py.round. rewrite Qfloor_Z.
  assert (H : (inject_Z k - inject_Z k ?= 1 # 2)%Q = (0 ?= 1 # 2)%Q)
    by (apply Qcompare_comp; [ring | reflexivity]).
  rewrite H. reflexivity.
Qed.

Lemma round_of_half_even (n : Z) : Z.even n = true -> Py.round (inject_Z n / 2) = n / 2.
Proof.
  intros He. apply Z.even_spec in He as [k ->].
  replace (2 * k / 2) with k by (symmetry; rewrite Z.mul_comm; apply Z.div_mul; lia).
  rewrite <- (round_of_integer k) at 2. apply round_Qeq.
  rewrite inject_Z_mult. field.
Qed.

(** The cutout stage on an image in view: the position it stores. *)
Lemma common_draw_position self viewer dst c w img dx dy a1 b1 a2 b2 ht wd dp :
  Self.image self = Some img ->
  Qle_bool w 0
  || match Cache.cutout c with None => true | Some _ => false end
  || negb (Self.optimize self) = true ->
  merge_clip self viewer img = ((dx, dy), (a1, b1), (a2, b2)) ->
  (0 < a2 - a1)%Q -> (0 < b2 - b1)%Q ->
  shape dst = (ht, wd, dp) ->
  let pan := Viewer.get_pan viewer in
  let off := Viewer.data_off viewer in
  let scale := Viewer.get_scale_xy viewer in
  is_Some (Cache.cutout (_common_draw self viewer dst c w).1)
  /\ Cache.cvs_pos (_common_draw self viewer dst c w).1
     = (Py.round (inject_Z wd / 2 + (dx - (pan.1 + off)) * scale.1)%Q,
        Py.round (inject_Z ht / 2 + (dy - (pan.2 + off)) * scale.2)%Q).
Proof.
  intros Hi Hg Hm Ha Hb Hs. cbv zeta. unfold _common_draw.
  rewrite Hi, Hg, Hm, Hs.
  rewrite (Qle_bool_false _ _ Ha), (Qle_bool_false _ _ Hb). cbn [orb].
  destruct (Viewer.get_scale_xy viewer) as [sx sy], (Viewer.get_pan viewer) as [px py].
  cbn. split; [eauto | reflexivity].
Qed.

(** X22. An image of at least two by two pixels that is in full view and
    whose corner is at the pan position of the viewer (the pan position
    plus the viewer's pixel offset) is composited at the centre of the
    destination: a draw that cuts the image stores, and composites at, the
    position [(round(wd / 2), round(ht / 2))], which is [(wd / 2, ht / 2)]
    for a destination of even width and height. *)
Theorem image_at_pan_is_centred self viewer dst w img ht wd dp :
  Self.image self = Some img ->
  (w <= 0)%Q \/ no_cutout self viewer \/ Self.optimize self = false ->
  in_full_view self viewer img ->
  2 <= img_width E img -> 2 <= img_height E img ->
  ((to_data E (Self.x self, Self.y self)).1
   == (Viewer.get_pan viewer).1 + Viewer.data_off viewer)%Q ->
  ((to_data E (Self.x self, Self.y self)).2
   == (Viewer.get_pan viewer).2 + Viewer.data_off viewer)%Q ->
  shape dst = (ht, wd, dp) ->
  let r := draw_image self viewer dst w in
  exists c' src d_order s_order a,
    Self._cache (object_after r) !! Viewer.ident viewer = Some c'
    /\ Cache.cvs_pos c' = (Py.round (inject_Z wd / 2), Py.round (inject_Z ht / 2))
    /\ overlays (trace_of r) = [overlay (Cache.cvs_pos c') src d_order s_order a]
    /\ (Z.even wd = true -> Z.even ht = true -> Cache.cvs_pos c' = (wd / 2, ht / 2)).
Proof.
  intros Hi Hg Hview Hw2 Hh2 Hx Hy Hs. cbv zeta.
  unfold in_full_view in Hview.
  destruct (to_data E (Self.x self, Self.y self)) as [dx dy] eqn:Hd.
  cbn [fst snd] in Hx, Hy.
  assert (Hguard : Qle_bool w 0
                   || match Cache.cutout (current_entry self viewer) with
                      | None => true
                      | Some _ => false
                      end
                   || negb (Self.optimize self) = true).
  { destruct Hg as [Hle | [Hn | Ho]].
    - rewrite (Qle_bool_true _ _ Hle). reflexivity.
    - rewrite (no_cutout_current_entry _ _ Hn). apply orb_true_iff. left.
      apply orb_true_r.
    - rewrite Ho. apply orb_true_r. }
  assert (Ha : (0 < inject_Z (img_width E img - 1) - 0)%Q).
  { unfold Qminus. rewrite Qplus_0_r. rewrite <- (Zlt_Qlt 0). lia. }
  assert (Hb : (0 < inject_Z (img_height E img - 1) - 0)%Q).
  { unfold Qminus. rewrite Qplus_0_r. rewrite <- (Zlt_Qlt 0). lia. }
  destruct (common_draw_position self viewer dst (current_entry self viewer) w img
              dx dy 0%Q 0%Q _ _ ht wd dp Hi Hguard Hview Ha Hb Hs) as (Hcut & Hpos).
  cbv zeta in Hpos.
  assert (Hcentre : Cache.cvs_pos
                      (_common_draw self viewer dst (current_entry self viewer) w).1
                    = (Py.round (inject_Z wd / 2), Py.round (inject_Z ht / 2))).
  { rewrite Hpos. f_equal; apply round_Qeq.
    - rewrite Hx. ring.
    - rewrite Hy. ring. }
  destruct (draw_image_by_entry self viewer dst w img Hi) as (Ho & Hv & _).
  cbv zeta in Ho, Hv.
  pose proof (draw_entry_shape self viewer dst img w (current_entry self viewer))
    as (_ & _ & Hcall).
  cbv zeta in Hcall.
  assert (Hcv : Cache.cvs_pos (draw_entry self viewer dst img w
                                 (current_entry self viewer)).1
                = Cache.cvs_pos
                    (_common_draw self viewer dst (current_entry self viewer) w).1
                /\ is_Some (draw_entry self viewer dst img w
                              (current_entry self viewer)).2).
  { unfold draw_entry. destruct Hcut as [cut Hcut]. rewrite Hcut.
    destruct (Self.kind self); cbn [fst snd]; [split; eauto|].
    pose proof (normalise_shape self viewer img w cut _
                  (_common_draw self viewer dst (current_entry self viewer) w).2 Hcut)
      as (_ & _ & _ & _ & Hp & _).
    cbv zeta in Hp. split; [exact Hp | eauto]. }
  destruct Hcv as [Hcv [call Hsome]].
  rewrite Ho, Hv. rewrite Hsome in Hcall |- *.
  destruct call as [[pos src] order]. destruct Hcall as (-> & _).
  exists (draw_entry self viewer dst img w (current_entry self viewer)).1, src,
    (Viewer.get_rgb_order viewer), order, (Self.alpha self).
  split; [apply store_lookup|]. rewrite Hcv, Hcentre.
  split; [reflexivity|]. split.
  - reflexivity.
  - intros Hew Heh. rewrite (round_of_half_even wd Hew), (round_of_half_even ht Heh).
    reflexivity.
Qed.

End Placement.

Lemma image_at_pan_is_centred_witness :
  let s := set_origin (51 # 2) (51 # 2) (Sample.object image_kind 5 5) in
  exists c',
    Self._cache (object_after (draw_image s Sample.viewer Sample.canvas 0)) !! 1%positive
    = Some c'
    /\ Cache.cvs_pos c' = (25, 25).
Proof.
  intros s.
  destruct (image_at_pan_is_centred s Sample.viewer Sample.canvas 0 Sample.pic 50 50 4)
    as (c' & src & d_order & s_order & a & Hl & _ & _ & Hc); try reflexivity.
  - left. discriminate.
  - cbn. lia.
  - cbn. lia.
  - exists c'. split; [exact Hl|]. apply Hc; reflexivity.
Defined.

(** ** The visuals of the object and of the viewer *)

Section Visuals.
Context {E : Collab}.
Implicit Types (self : Self.t E) (viewer : Viewer.t E) (dst : dstarr E) (w : Q).

Lemma common_draw_with_visuals m a cuts self viewer dst c w :
  _common_draw self (with_visuals m a cuts viewer) dst c w
  = _common_draw self viewer dst c w.
Proof. destruct viewer; reflexivity. Qed.

Lemma get_cache_with_visuals m a cuts self viewer :
  get_cache self (with_visuals m a cuts viewer) = get_cache self viewer.
Proof. reflexivity. Qed.

(** X23. The visuals of the object come before those of the viewer.  An
    object of the raw class is drawn the same whatever the colour mapper,
    the auto-cuts object and the cut levels of the viewer are, and so is
    an object of the normalised class that has a colour mapper, an
    auto-cuts object and cut levels of its own; a normalised object that
    has none of its own is adjusted with the cut levels and the auto-cuts
    object of the viewer. *)
Theorem own_visuals_come_first self viewer dst w m a cuts :
  (Self.kind self = image_kind
   \/ (is_Some (Self.rgbmap self) /\ is_Some (Self.autocuts self)
       /\ is_Some (Self.cuts self)) ->
   draw_image self (with_visuals m a cuts viewer) dst w = draw_image self viewer dst w)
  /\ (Self.autocuts self = None -> Self.cuts self = None ->
      forall data vmin vmax,
        apply_visuals self viewer data vmin vmax
        = cut_levels E (Viewer.autocuts viewer) data (Viewer.t_cuts viewer).1
            (Viewer.t_cuts viewer).2 vmin vmax).
Proof.
  split.
  - intros Hown. unfold draw_image.
    destruct (Self.kind self) eqn:Hk.
    + unfold ImageP_draw_image.
      rewrite get_cache_with_visuals.
      destruct (Self.image self); [|reflexivity].
      destruct (get_cache self viewer) as [c0 s0].
      rewrite common_draw_with_visuals. reflexivity.
    + destruct Hown as [Hk' | ([m0 Hm] & [a0 Ha] & [c0 Hc])]; [discriminate|].
      unfold NormImageP_draw_image.
      rewrite get_cache_with_visuals.
      destruct (Self.image self) as [img|]; [|reflexivity].
      destruct (get_cache_attributes self viewer) as [mm Hmm].
      destruct (get_cache self viewer) as [c1 s1]. cbn [snd] in Hmm. subst s1.
      rewrite common_draw_with_visuals.
      destruct (_common_draw (Self.set_cache mm self) viewer dst c1 w) as [c2 tr].
      destruct (Cache.cutout c2) as [cut|]; [|reflexivity].
      assert (Hn : normalise (Self.set_cache mm self) (with_visuals m a cuts viewer)
                     img w cut c2 tr
                   = normalise (Self.set_cache mm self) viewer img w cut c2 tr).
      { unfold normalise, index_array, apply_visuals.
        destruct self; cbn in *. subst. destruct viewer; reflexivity. }
      rewrite Hn. reflexivity.
  - intros Ha Hc data vmin vmax. unfold apply_visuals. rewrite Ha, Hc.
    destruct (Viewer.t_cuts viewer); reflexivity.
Qed.

End Visuals.

Lemma own_visuals_come_first_witness :
  draw_image (Sample.object image_kind 5 5)
    (with_visuals (16 : rgbmap_t Sample.collab) (tt : autocuts_t Sample.collab)
       (10, 20)%Q Sample.viewer) Sample.canvas 0
  = draw_image (Sample.object image_kind 5 5) Sample.viewer Sample.canvas 0.
Proof.
  pose proof (own_visuals_come_first (Sample.object image_kind 5 5) Sample.viewer
                Sample.canvas 0 (16 : rgbmap_t Sample.collab)
                (tt : autocuts_t Sample.collab) (10, 20)%Q) as (H & _).
  apply H. left. reflexivity.
Defined.
